(** * Clap counter service: the request handlers and the window compactor

    A shallow embedding of the two Cloudflare Workers of the clap counter:
    the D1 worker, which keeps counters and rate-limit rows in two SQL
    tables, and the KV worker, which keeps both in a key-value namespace.

    A handler is a tree of operations on shared state (the database or
    namespace, and the in-process Map of the D1 worker).  One interpreter
    runs a handler alone; a scheduler interleaves the handlers in flight,
    each keeping control between two awaited operations, as the event
    loop does.

    What is left outside: response headers and what the CORS middleware
    does with the answer of its origin callback (it never turns a request
    away), the clock (each request carries the value
    of [Date.now()] it reads), several worker instances (each has a Map of
    its own), replication delay of the namespace, failures of storage, and
    the rounding of floating point in the sums of the KV worker.  Integer
    columns hold integers of any size.  A string is held as its UTF-8
    bytes. *)

From Stdlib Require Import ZArith QArith Qround String Ascii List Bool Lia.
From Stdlib Require Import Init.Byte.
From stdpp Require Import gmap strings list fin_maps sorting finite.

Local Open Scope string_scope.
Local Open Scope Z_scope.

(** ** The platform digest: SHA-256 (FIPS 180-4)

    [crypto.subtle.digest('SHA-256', data)] is supplied by the runtime.
    The handlers below are parametric in the digest; this module gives the
    function the runtime computes, so that handlers can be run on concrete
    requests. *)
Module Sha256.

Definition w32 (x : Z) : Z := x mod 2 ^ 32.
Definition add32 (x y : Z) : Z := w32 (x + y).
Definition rotr (n x : Z) : Z := Z.lor (Z.shiftr x n) (w32 (Z.shiftl x (32 - n))).
Definition not32 (x : Z) : Z := Z.lxor x 4294967295.

Definition Ch (x y z : Z) := Z.lxor (Z.land x y) (Z.land (not32 x) z).
Definition Maj (x y z : Z) := Z.lxor (Z.lxor (Z.land x y) (Z.land x z)) (Z.land y z).
Definition Sigma0 x := Z.lxor (Z.lxor (rotr 2 x) (rotr 13 x)) (rotr 22 x).
Definition Sigma1 x := Z.lxor (Z.lxor (rotr 6 x) (rotr 11 x)) (rotr 25 x).
Definition sigma0 x := Z.lxor (Z.lxor (rotr 7 x) (rotr 18 x)) (Z.shiftr x 3).
Definition sigma1 x := Z.lxor (Z.lxor (rotr 17 x) (rotr 19 x)) (Z.shiftr x 10).

Definition K : list Z :=
  [ 1116352408; 1899447441; 3049323471; 3921009573; 961987163; 1508970993;
    2453635748; 2870763221; 3624381080; 310598401; 607225278; 1426881987;
    1925078388; 2162078206; 2614888103; 3248222580; 3835390401; 4022224774;
    264347078; 604807628; 770255983; 1249150122; 1555081692; 1996064986;
    2554220882; 2821834349; 2952996808; 3210313671; 3336571891; 3584528711;
    113926993; 338241895; 666307205; 773529912; 1294757372; 1396182291;
    1695183700; 1986661051; 2177026350; 2456956037; 2730485921; 2820302411;
    3259730800; 3345764771; 3516065817; 3600352804; 4094571909; 275423344;
    430227734; 506948616; 659060556; 883997877; 958139571; 1322822218;
    1537002063; 1747873779; 1955562222; 2024104815; 2227730452; 2361852424;
    2428436474; 2756734187; 3204031479; 3329325298 ].

Definition H0 : list Z :=
  [ 1779033703; 3144134277; 1013904242; 2773480762;
    1359893119; 2600822924; 528734635; 1541459225 ].

(** Padding: a 1 bit, zeros up to 56 mod 64 bytes, the bit length on 8 bytes. *)
Definition be_bytes (n : nat) (x : Z) : list Z :=
  map (fun i => (x / 2 ^ (8 * Z.of_nat i)) mod 256) (rev (seq 0 n)).

Definition pad (msg : list Z) : list Z :=
  let len := Z.of_nat (length msg) in
  let zeros := Z.to_nat ((55 - len) mod 64) in
  msg ++ 128 :: repeat 0 zeros ++ be_bytes 8 (8 * len).

Fixpoint words (bs : list Z) : list Z :=
  match bs with
  | a :: b :: c :: d :: rest =>
      (((a * 256 + b) * 256 + c) * 256 + d) :: words rest
  | _ => []
  end.

Fixpoint chunks (fuel : nat) (ws : list Z) : list (list Z) :=
  match fuel, ws with
  | S fuel', _ :: _ => firstn 16 ws :: chunks fuel' (skipn 16 ws)
  | _, _ => []
  end.

(** One round; [win] holds the sixteen most recent schedule words. *)
Definition next_word (win : list Z) : Z :=
  add32 (add32 (sigma1 (nth 14 win 0)) (nth 9 win 0))
        (add32 (sigma0 (nth 1 win 0)) (nth 0 win 0)).

Definition round (k wt : Z) (s : list Z) : list Z :=
  match s with
  | [a; b; c; d; e; f; g; h] =>
      let t1 := add32 (add32 (add32 h (Sigma1 e)) (add32 (Ch e f g) k)) wt in
      let t2 := add32 (Sigma0 a) (Maj a b c) in
      [add32 t1 t2; a; b; c; add32 d t1; e; f; g]
  | _ => s
  end.

Fixpoint rounds (ks : list Z) (win s : list Z) : list Z :=
  match ks with
  | [] => s
  | k :: ks' =>
      rounds ks' (tl win ++ [next_word win]) (round k (nth 0 win 0) s)
  end.

Definition compress (h block : list Z) : list Z :=
  zip_with add32 h (rounds K block h).

Definition digest_words (msg : list Z) : list Z :=
  let ws := words (pad msg) in
  fold_left compress (chunks (length ws) ws) H0.

Definition digest (data : list byte) : list byte :=
  let msg := map (fun b => Z.of_N (Byte.to_N b)) data in
  omap (fun z => Byte.of_N (Z.to_N z))
       (flat_map (be_bytes 4) (digest_words msg)).

End Sha256.

(** ** Strings, bytes and hexadecimal rendering *)

(** [new TextEncoder().encode(s)]: strings are held as their UTF-8 bytes. *)
Definition encode (s : string) : list byte := list_byte_of_string s.

Definition hex_digit (n : N) : ascii :=
  ascii_of_N (if (n <? 10)%N then 48 + n else 87 + n)%N.

(** [b.toString(16)] for a byte. *)
Definition toString16 (b : byte) : string :=
  let n := Byte.to_N b in
  if (n <? 16)%N then String (hex_digit n) EmptyString
  else String (hex_digit (n / 16)) (String (hex_digit (n mod 16)) EmptyString).

(** [s.padStart(2, '0')]. *)
Definition padStart2 (s : string) : string :=
  match String.length s with
  | O => "00"
  | S O => "0" +:+ s
  | _ => s
  end.

Definition hex_of_bytes (bs : list byte) : string :=
  String.concat "" (map (fun b => padStart2 (toString16 b)) bs).

(** ** JavaScript values as the handlers see them *)
Module Js.

(** A JavaScript number: finite values are rationals (every finite double
    is one); rounding of binary floating point is not part of the model. *)
Inductive num : Type :=
| NaN
| PInf
| NInf
| Fin (q : Q).

(** The value of a property read off a parsed JSON body.  A string, array
    or object carries the number that the engine's ToNumber conversion
    yields for it ([Number("5")] is 5, [Number([])] is 0, [Number({})] is
    NaN). *)
Inductive value : Type :=
| VUndefined
| VNull
| VBool (b : bool)
| VNum (n : num)
| VStr (s : string) (to_number : num)
| VObj (to_number : num).

(** [Number(v)]. *)
Definition Number (v : value) : num :=
  match v with
  | VUndefined => NaN
  | VNull => Fin 0
  | VBool b => Fin (if b then 1 else 0)
  | VNum n => n
  | VStr _ n => n
  | VObj n => n
  end.

Definition is_zero (q : Q) : bool := (Qnum q =? 0)%Z.

(** Truthiness, as used by [||] and [!]. *)
Definition truthy (v : value) : bool :=
  match v with
  | VUndefined | VNull => false
  | VBool b => b
  | VNum NaN => false
  | VNum (Fin q) => negb (is_zero q)
  | VNum _ => true
  | VStr s _ => negb (String.eqb s "")
  | VObj _ => true
  end.

Definition Qleb (x y : Q) : bool := match (x ?= y)%Q with Gt => false | _ => true end.
Definition Qltb (x y : Q) : bool := match (x ?= y)%Q with Lt => true | _ => false end.

(** [Math.max(a, b)] and [Math.min(a, b)]: NaN if either argument is. *)
Definition max (a b : num) : num :=
  match a, b with
  | NaN, _ | _, NaN => NaN
  | PInf, _ | _, PInf => PInf
  | NInf, x | x, NInf => x
  | Fin x, Fin y => if Qleb x y then Fin y else Fin x
  end.

Definition min (a b : num) : num :=
  match a, b with
  | NaN, _ | _, NaN => NaN
  | NInf, _ | _, NInf => NInf
  | PInf, x | x, PInf => x
  | Fin x, Fin y => if Qleb x y then Fin x else Fin y
  end.

(** [a + b]. *)
Definition add (a b : num) : num :=
  match a, b with
  | NaN, _ | _, NaN => NaN
  | PInf, NInf | NInf, PInf => NaN
  | PInf, _ | _, PInf => PInf
  | NInf, _ | _, NInf => NInf
  | Fin x, Fin y => Fin (Qred (x + y))
  end.

(** [a > b]: false whenever NaN is involved. *)
Definition gt (a b : num) : bool :=
  match a, b with
  | NaN, _ | _, NaN => false
  | PInf, PInf => false
  | PInf, _ => true
  | _, PInf => false
  | NInf, _ => false
  | Fin _, NInf => true
  | Fin x, Fin y => Qltb y x
  end.

Definition of_Z (z : Z) : num := Fin (inject_Z z).

(** The body of a request as [await c.req.json()] delivers it. *)
Inductive body : Type :=
| BodyInvalid                 (* json() rejects: no body, or not JSON *)
| BodyNull                    (* the JSON text null *)
| BodyValue (count : value).  (* any other JSON value; its count property,
                                 VUndefined when it has none *)

(** [body?.count] of a body that was parsed. *)
Definition optional_count (b : body) : value :=
  match b with
  | BodyValue count => count
  | _ => VUndefined
  end.

(** The white space that [trim] and [parseInt] strip: WhiteSpace and
    LineTerminator of ECMAScript, in the UTF-8 bytes a string is held as.
    In one byte: U+0009 to U+000D and U+0020. *)
Definition is_space (c : ascii) : bool :=
  let n := N_of_ascii c in
  ((9 <=? n) && (n <=? 13) || (n =? 32))%N.

(** In two bytes: U+00A0. *)
Definition is_space2 (c1 c2 : ascii) : bool :=
  ((N_of_ascii c1 =? 194) && (N_of_ascii c2 =? 160))%N.

(** In three bytes: U+1680; U+2000 to U+200A, U+2028, U+2029 and U+202F;
    U+205F; U+3000; U+FEFF. *)
Definition is_space3 (c1 c2 c3 : ascii) : bool :=
  let a := N_of_ascii c1 in
  let b := N_of_ascii c2 in
  let c := N_of_ascii c3 in
  ((a =? 225) && (b =? 154) && (c =? 128)
   || (a =? 226) && (b =? 128)
      && ((128 <=? c) && (c <=? 138) || (c =? 168) || (c =? 169) || (c =? 175))
   || (a =? 226) && (b =? 129) && (c =? 159)
   || (a =? 227) && (b =? 128) && (c =? 128)
   || (a =? 239) && (b =? 187) && (c =? 191))%N.

(** The number of bytes of the white-space character a string starts
    with; 0 when it starts with none. *)
Definition space_width (s : string) : nat :=
  match s with
  | String c1 s1 =>
      if is_space c1 then 1%nat
      else match s1 with
           | String c2 s2 =>
               if is_space2 c1 c2 then 2%nat
               else match s2 with
                    | String c3 _ => if is_space3 c1 c2 c3 then 3%nat else 0%nat
                    | EmptyString => 0%nat
                    end
           | EmptyString => 0%nat
           end
  | EmptyString => 0%nat
  end.

Definition is_digit (c : ascii) : bool :=
  let n := N_of_ascii c in ((48 <=? n) && (n <=? 57))%N.

Fixpoint skip_spaces (s : string) : string :=
  match space_width s, s with
  | 1%nat, String _ s1 => skip_spaces s1
  | 2%nat, String _ (String _ s2) => skip_spaces s2
  | 3%nat, String _ (String _ (String _ s3)) => skip_spaces s3
  | _, _ => s
  end.

Fixpoint digits (acc : option Z) (s : string) : option Z :=
  match s with
  | String c s' =>
      if is_digit c
      then digits (Some (10 * default 0 acc + (Z.of_N (N_of_ascii c) - 48))) s'
      else acc
  | EmptyString => acc
  end.

(** The double nearest to an integer, a tie going to the even
    significand of 53 bits: an integer of up to 53 bits is a double
    itself.  From 2^1024 - 2^970 on in size the engine has Infinity or
    -Infinity, held as the integer this gives: like them it lies beyond
    every finite double, and the handlers only compare the ceilings
    they parse. *)
Definition to_double (n : Z) : Z :=
  let a := Z.abs n in
  let e := Z.log2 a - 52 in
  if e <=? 0 then n
  else
    let q := Z.shiftr a e in
    let r := a - Z.shiftl q e in
    let half := Z.shiftl 1 (e - 1) in
    let q' := if (half <? r) || (r =? half) && Z.odd q then q + 1 else q in
    Z.sgn n * Z.shiftl q' e.

(** [parseInt(s, 10)]; [None] is NaN.  An unset variable converts to the
    text "undefined", which has no digits. *)
Definition parseInt (s : option string) : option Z :=
  match s with
  | None => None
  | Some s =>
      to_double <$>
        match skip_spaces s with
        | String "-" s' => Z.opp <$> digits None s'
        | String "+" s' => digits None s'
        | s' => digits None s'
        end
  end.

(** [x || d] for the result of [parseInt]: NaN and 0 are falsy. *)
Definition or_default (x : option Z) (d : Z) : Z :=
  match x with
  | Some z => if z =? 0 then d else z
  | None => d
  end.

(** Whether a string is white space and nothing else. *)
Definition blank (s : string) : bool :=
  match skip_spaces s with
  | EmptyString => true
  | _ => false
  end.

(** [s.trim()]: the white space at the end goes from the first place on
    after which there is nothing but white space. *)
Fixpoint rtrim (s : string) : string :=
  match s with
  | EmptyString => EmptyString
  | String c s' => if blank s then EmptyString else String c (rtrim s')
  end.

Definition trim (s : string) : string := rtrim (skip_spaces s).

(** [s.split(',')]. *)
Fixpoint split_comma (s : string) : list string :=
  match s with
  | EmptyString => [EmptyString]
  | String c s' =>
      if Ascii.eqb c ","
      then EmptyString :: split_comma s'
      else match split_comma s' with
           | x :: xs => String c x :: xs
           | [] => [String c EmptyString]
           end
  end.

End Js.

(** ** Definitions shared by both workers *)

(** The bindings of the worker ([c.env]); an unset variable is [None]. *)
Record Env : Type := {
  ALLOWED_ORIGINS : option string;
  IP_HASH_SALT : option string;
  MAX_CLAPS_PER_IP : option string;
  MAX_CLAPS_PER_REQUEST : option string
}.

(** What a handler reads off an incoming request, with the clock value
    [Date.now()] it observes. *)
Record Request : Type := {
  slug : string;                 (* c.req.param().slug *)
  origin : option string;        (* c.req.header('Origin') *)
  connecting_ip : option string; (* c.req.header('CF-Connecting-IP') *)
  body : Js.body;                (* await c.req.json() *)
  now : Z                        (* Date.now() *)
}.

Definition in_range (lo hi : N) (c : ascii) : bool :=
  let n := N_of_ascii c in ((lo <=? n) && (n <=? hi))%N.

(** The character classes of [SLUG_RE = /^[a-z0-9][a-z0-9._:'\-]*$/]. *)
Definition slug_first (c : ascii) : bool := in_range 97 122 c || in_range 48 57 c.

Definition slug_rest (c : ascii) : bool :=
  slug_first c
  || Ascii.eqb c "." || Ascii.eqb c "_" || Ascii.eqb c ":"
  || Ascii.eqb c "'" || Ascii.eqb c "-".

Fixpoint all_chars (p : ascii -> bool) (s : string) : bool :=
  match s with
  | EmptyString => true
  | String c s' => p c && all_chars p s'
  end.

(** [SLUG_RE.test(s)]. *)
Definition SLUG_RE_test (s : string) : bool :=
  match s with
  | EmptyString => false
  | String c s' => slug_first c && all_chars slug_rest s'
  end.

Definition MAX_SLUG_LEN : nat := 200.

(** The length is counted in bytes: for a slug within the pattern that
    is its number of characters, and a slug with other characters is
    invalid whatever its length. *)
Definition isValidSlug (slug : string) : bool :=
  if String.eqb slug "" || (MAX_SLUG_LEN <? String.length slug)%nat then false
  else SLUG_RE_test slug.

(** [getAllowedOrigins(env)]: the set is held as the list of its members.
    The D1 worker caches the set per [env] object, which returns the same
    set. *)
Definition getAllowedOrigins (env : Env) : list string :=
  let origins := default "" (ALLOWED_ORIGINS env) in
  filter (fun o => o ≠ "") (Js.trim <$> Js.split_comma origins).

Definition has (set : list string) (x : string) : bool := bool_decide (x ∈ set).

(** [c.req.header('CF-Connecting-IP') || '0.0.0.0']. *)
Definition getClientIp (req : Request) : string :=
  match connecting_ip req with
  | Some ip => if String.eqb ip "" then "0.0.0.0" else ip
  | None => "0.0.0.0"
  end.

(** ** The allowed origins as the workers use them *)

(** The origin callback both workers hand to the CORS middleware: what
    it returns becomes Access-Control-Allow-Origin, [None] standing for
    null.  The middleware calls it with the Origin header of the request. *)
Definition cors_origin (env : Env) (origin : option string) : option string :=
  match origin with
  | None => None
  | Some origin =>
      if String.eqb origin "" then None
      else
        let allowed := getAllowedOrigins env in
        if has allowed origin then Some origin else None
  end.

(** [getAllowedOrigins] of the D1 worker as it is written, with its
    WeakMap: [allowedOriginsCache] maps an env object, known by its
    identity [ref], to the set computed for it. *)
Definition getAllowedOrigins_cached (allowedOriginsCache : gmap positive (list string))
    (ref : positive) (env : Env) : list string * gmap positive (list string) :=
  match allowedOriginsCache !! ref with
  | Some set => (set, allowedOriginsCache)
  | None =>
      let set := getAllowedOrigins env in
      (set, <[ref := set]> allowedOriginsCache)
  end.

(** Calls of [getAllowedOrigins] one after the other, on env objects
    whose bindings [objects] do not change while they live. *)
Fixpoint getAllowedOrigins_calls (objects : positive -> Env) (refs : list positive)
    (allowedOriginsCache : gmap positive (list string)) : list (list string) :=
  match refs with
  | [] => []
  | ref :: refs' =>
      let '(set, cache) := getAllowedOrigins_cached allowedOriginsCache ref (objects ref) in
      set :: getAllowedOrigins_calls objects refs' cache
  end.

(** ** Handlers as trees of operations on shared state

    A handler either answers, or performs one operation on shared state
    and continues with its result.  An operation is either synchronous (a
    call on an object of the worker's own memory) or awaited (a call to
    storage); a handler keeps control until it awaits. *)
Inductive prog (Op : Type) (Res : Op -> Type) (A : Type) : Type :=
| Ret (a : A)
| Do (op : Op) (k : Res op -> prog Op Res A).

Arguments Ret {Op Res A} a.
Arguments Do {Op Res A} op k.

Section Interp.
Context {Op : Type} {Res : Op -> Type} {St A : Type}.
Variable exec : forall op : Op, St -> St * Res op.
Variable sync : Op -> bool.

(** Run one handler to completion; the operations it performed are
    returned in order. *)
Fixpoint run (p : prog Op Res A) (st : St) : A * St * list Op :=
  match p with
  | Ret a => (a, st, [])
  | Do op k =>
      let '(st', r) := exec op st in
      let '(a, st'', ops) := run (k r) st' in
      (a, st'', op :: ops)
  end.

(** Run a handler for as long as it keeps control: through its
    synchronous operations, up to the next awaited one. *)
Fixpoint settle (p : prog Op Res A) (st : St) : prog Op Res A * St :=
  match p with
  | Ret _ => (p, st)
  | Do op k =>
      if sync op then let '(st', r) := exec op st in settle (k r) st'
      else (p, st)
  end.

(** One turn of handler number [i] of a pool of handlers in flight: its
    pending operation takes effect and the handler runs on until it awaits
    again. *)
Definition step (i : nat) (pool : list (prog Op Res A)) (st : St)
  : list (prog Op Res A) * St :=
  match pool !! i with
  | Some (Do op k) =>
      let '(st', r) := exec op st in
      let '(p', st'') := settle (k r) st' in
      (<[i := p']> pool, st'')
  | _ => (pool, st)
  end.

(** An interleaving: the list names, turn by turn, which handler moves. *)
Fixpoint interleave (sched : list nat) (pool : list (prog Op Res A)) (st : St)
  : list (prog Op Res A) * St :=
  match sched with
  | [] => (pool, st)
  | i :: sched' =>
      let '(pool', st') := step i pool st in interleave sched' pool' st'
  end.

Definition finished (p : prog Op Res A) : option A :=
  match p with Ret a => Some a | Do _ _ => None end.
End Interp.

Notation "'let*' x ':=' 'await' op 'in' k" := (Do op (fun x => k))
  (at level 10, x name, op at level 100, k at level 200, only parsing).

(** ** The D1 worker *)
Module D1.

Definition RATE_LIMIT_WINDOW_MS : Z := 60 * 60 * 1000.
Definition DEBOUNCE_MS : Z := 500.

Definition getMaxClapsPerIp (env : Env) : Z :=
  Js.or_default (Js.parseInt (MAX_CLAPS_PER_IP env)) 50.
Definition getMaxClapsPerRequest (env : Env) : Z :=
  Js.or_default (Js.parseInt (MAX_CLAPS_PER_REQUEST env)) 10.

(** *** The database: tables keyed by their primary keys *)
Record claps_row : Type := { claps_count : Z; claps_updated_at : Z }.
Record rate_limits_row : Type := { rl_count : Z; rl_updated_at : Z }.

Record db : Type := {
  claps : gmap string claps_row;
  rate_limits : gmap (string * string * Z) rate_limits_row
}.

(** The prepared statements of the worker, with their bound values. *)
Inductive stmt : Type :=
| SelectClaps (slug : string)
| UpsertRateLimit (ip_hash slug : string) (window_start count updated_at limit : Z)
| UpsertClaps (slug : string) (count updated_at : Z)
| DeleteRateLimits (cutoff limit : Z).

(** A statement's outcome: [meta.changes] and the [count] column of the
    rows it returns. *)
Record result : Type := { changes : Z; results : list Z }.

Definition window_start_of (kv : string * string * Z * rate_limits_row) : Z := kv.1.2.

Definition older (x y : string * string * Z * rate_limits_row) : Prop :=
  window_start_of x <= window_start_of y.

Global Instance older_dec x y : Decision (older x y).
Proof. unfold older. apply _. Defined.

(** SELECT rowid FROM rate_limits WHERE window_start < ?1
    ORDER BY window_start LIMIT ?2, for a limit that is not negative; rows
    with the same window_start come in the order of the table. *)
Definition select_expired (cutoff limit : Z)
    (t : gmap (string * string * Z) rate_limits_row)
  : list (string * string * Z * rate_limits_row) :=
  take (Z.to_nat limit)
    (merge_sort older
       (filter (fun kv => window_start_of kv < cutoff) (map_to_list t))).

Definition delete_rows (rows : list (string * string * Z * rate_limits_row))
    (t : gmap (string * string * Z) rate_limits_row)
  : gmap (string * string * Z) rate_limits_row :=
  foldr (fun kv m => delete kv.1 m) t rows.

Definition exec_stmt (s : stmt) (d : db) : db * result :=
  match s with
  | SelectClaps slug =>
      (d, {| changes := 0;
             results := match claps d !! slug with
                        | Some r => [claps_count r]
                        | None => []
                        end |})
  | UpsertRateLimit ip_hash slug window_start count updated_at limit =>
      let key := (ip_hash, slug, window_start) in
      match rate_limits d !! key with
      | None =>
          ({| claps := claps d;
              rate_limits :=
                <[key := {| rl_count := count; rl_updated_at := updated_at |}]>
                  (rate_limits d) |},
           {| changes := 1; results := [] |})
      | Some r =>
          if rl_count r + count <=? limit
          then ({| claps := claps d;
                   rate_limits :=
                     <[key := {| rl_count := rl_count r + count;
                                 rl_updated_at := updated_at |}]>
                       (rate_limits d) |},
                {| changes := 1; results := [] |})
          else (d, {| changes := 0; results := [] |})
      end
  | UpsertClaps slug count updated_at =>
      let c := match claps d !! slug with
               | Some r => claps_count r + count
               | None => count
               end in
      ({| claps := <[slug := {| claps_count := c; claps_updated_at := updated_at |}]>
                     (claps d);
          rate_limits := rate_limits d |},
       {| changes := 1; results := [c] |})
  | DeleteRateLimits cutoff limit =>
      let rows := select_expired cutoff limit (rate_limits d) in
      ({| claps := claps d; rate_limits := delete_rows rows (rate_limits d) |},
       {| changes := Z.of_nat (length rows); results := [] |})
  end.

(** [DB.batch(stmts)]: the statements run in order, as one transaction. *)
Fixpoint exec_batch (ss : list stmt) (d : db) : db * list result :=
  match ss with
  | [] => (d, [])
  | s :: ss' =>
      let '(d', r) := exec_stmt s d in
      let '(d'', rs) := exec_batch ss' d' in
      (d'', r :: rs)
  end.

(** *** Shared state and the operations on it *)
Record state : Type := {
  DB : db;
  lastRequestTime : gmap string Z   (* the module-level Map *)
}.

Inductive op : Type :=
| MapGet (key : string)             (* lastRequestTime.get(key) *)
| MapSet (key : string) (t : Z)     (* lastRequestTime.set(key, t) *)
| First (s : stmt)                  (* s.first(): count of the first row *)
| Batch (ss : list stmt).           (* DB.batch(ss) *)

Definition Res (o : op) : Type :=
  match o with
  | MapGet _ => option Z
  | MapSet _ _ => unit
  | First _ => option Z
  | Batch _ => list result
  end.

Definition exec (o : op) (st : state) : state * Res o :=
  match o with
  | MapGet key => (st, lastRequestTime st !! key)
  | MapSet key t =>
      ({| DB := DB st; lastRequestTime := <[key := t]> (lastRequestTime st) |}, tt)
  | First s =>
      let '(d, r) := exec_stmt s (DB st) in
      ({| DB := d; lastRequestTime := lastRequestTime st |}, head (results r))
  | Batch ss =>
      let '(d, rs) := exec_batch ss (DB st) in
      ({| DB := d; lastRequestTime := lastRequestTime st |}, rs)
  end.

(** *** Responses *)
Inductive payload : Type :=
| InvalidSlug
| Forbidden
| TooFast
| RateLimitExceeded
| Count (count : Z)
| CountSuccess (count : Z)
| InternalError.

Record response : Type := { status : Z; json : payload }.

Definition handler := prog op Res response.

(** *** The handlers *)
Section Handlers.
(** [crypto.subtle.digest('SHA-256', _)]. *)
Variable digest : list byte -> list byte.

Definition sha256Hex (env : Env) (input : string) : string :=
  let salt := default "" (IP_HASH_SALT env) in
  let data := encode (salt +:+ ":" +:+ input) in
  let hash := digest data in
  hex_of_bytes hash.

(** GET /claps/:slug *)
Definition get (req : Request) : handler :=
  if negb (isValidSlug (slug req)) then
    Ret {| status := 400; json := InvalidSlug |}
  else
    let* row := await First (SelectClaps (slug req)) in
    Ret {| status := 200; json := Count (default 0 row) |}.

(** The amount asked for: 1, unless the body parses and
    [Number(body?.count)] is finite. *)
Definition requested (b : Js.body) : Q :=
  match b with
  | Js.BodyInvalid => 1
  | _ =>
      match Js.Number (Js.optional_count b) with
      | Js.Fin n => n
      | _ => 1
      end
  end.

Definition incrementBy (env : Env) (b : Js.body) : Z :=
  Z.min (Z.max (Qfloor (requested b)) 1) (getMaxClapsPerRequest env).

Definition windowStart (now : Z) : Z :=
  now / RATE_LIMIT_WINDOW_MS * RATE_LIMIT_WINDOW_MS.

Definition debounceKey (env : Env) (req : Request) : string :=
  sha256Hex env (getClientIp req) +:+ ":" +:+ slug req.

Definition rateLimitStmt (env : Env) (req : Request) : stmt :=
  UpsertRateLimit (sha256Hex env (getClientIp req)) (slug req)
    (windowStart (now req)) (incrementBy env (body req)) (now req)
    (getMaxClapsPerIp env).

Definition clapsStmt (env : Env) (req : Request) : stmt :=
  UpsertClaps (slug req) (incrementBy env (body req)) (now req).

(** POST /claps/:slug *)
Definition post (env : Env) (req : Request) : handler :=
  if negb (isValidSlug (slug req)) then
    Ret {| status := 400; json := InvalidSlug |}
  else
  match origin req with
  | None => Ret {| status := 403; json := Forbidden |}
  | Some origin =>
  if String.eqb origin "" then Ret {| status := 403; json := Forbidden |} else
  if negb (has (getAllowedOrigins env) origin) then
    Ret {| status := 403; json := Forbidden |}
  else
    let* last := await MapGet (debounceKey env req) in
    let lastTime := Js.or_default last 0 in
    if now req - lastTime <? DEBOUNCE_MS then
      Ret {| status := 429; json := TooFast |}
    else
    let* _ := await MapSet (debounceKey env req) (now req) in
    let* rs := await Batch [rateLimitStmt env req; clapsStmt env req] in
    match rs with
    | [rateLimitResult; clapsResult] =>
        if changes rateLimitResult =? 0 then
          Ret {| status := 429; json := RateLimitExceeded |}
        else
          let row := head (results clapsResult) in
          Ret {| status := 200; json := CountSuccess (default 0 row) |}
    | _ => Ret {| status := 500; json := InternalError |}
    end
  end.

Definition BATCH_SIZE : Z := 1000.

(** The loop of [scheduled]; the changes of each batch are collected. *)
Fixpoint scheduled_loop (fuel : nat) (cutoff : Z) (d : db) : option (db * list Z) :=
  match fuel with
  | O => None
  | S fuel' =>
      let '(d', result) := exec_stmt (DeleteRateLimits cutoff BATCH_SIZE) d in
      if changes result <? BATCH_SIZE then Some (d', [changes result])
      else
        match scheduled_loop fuel' cutoff d' with
        | Some (d'', cs) => Some (d'', changes result :: cs)
        | None => None
        end
  end.

(** [scheduled(event, env)], started when the clock reads [now]. *)
Definition scheduled (now : Z) (d : db) : option (db * list Z) :=
  let cutoff := now - 2 * 60 * 60 * 1000 in
  scheduled_loop (S (size (rate_limits d))) cutoff d.

Definition serve (p : handler) (st : state) : response * state * list op :=
  run exec p st.

(** The Map lives in the worker's memory: reading and writing it does not
    give up control.  Statements sent to the database are awaited. *)
Definition sync (o : op) : bool :=
  match o with
  | MapGet _ | MapSet _ _ => true
  | First _ | Batch _ => false
  end.

(** Handlers in flight at once, in one worker instance. *)
Definition concurrent (sched : list nat) (pool : list handler) (st : state)
  : list handler * state :=
  interleave exec sync sched pool st.

(** What the worker is asked to do, one call after the other. *)
Inductive event : Type :=
| GET (req : Request)
| POST (req : Request)
| CRON (now : Z).

Definition handle (env : Env) (e : event) (st : state) : state :=
  match e with
  | GET req => (serve (get req) st).1.2
  | POST req => (serve (post env req) st).1.2
  | CRON now =>
      match scheduled now (DB st) with
      | Some (d, _) => {| DB := d; lastRequestTime := lastRequestTime st |}
      | None => st
      end
  end.

Definition handle_all (env : Env) (es : list event) (st : state) : state :=
  foldl (fun st e => handle env e st) st es.

Definition count_of (st : state) (slug : string) : Z :=
  match claps (DB st) !! slug with
  | Some r => claps_count r
  | None => 0
  end.

End Handlers.

End D1.

(** ** The KV worker *)
Module KV.

Definition RATE_LIMIT_WINDOW_MS : Z := 60 * 60 * 1000.
Definition MAX_CLAPS_PER_IP : Z := 50.

Definition getClapKey (slug : string) : string := "claps:" +:+ slug.
Definition getRateLimitKey (ip slug : string) : string :=
  "rl:" +:+ ip +:+ ":" +:+ slug.

(** What the namespace BLOG_CLAPS holds under a key: the text of a
    counter, written by [newCount.toString()], or the JSON text of a
    rate-limit record [{count, start}].  Keys of the two kinds start
    differently, so a key holds one kind only. *)
Inductive kv_value : Type :=
| KvCount (n : Js.num)
| KvRl (count : Q) (start : Z).

Inductive op : Type :=
| Get (key : string)                                  (* BLOG_CLAPS.get *)
| Put (key : string) (v : kv_value) (ttl : option Z). (* BLOG_CLAPS.put *)

Definition Res (o : op) : Type :=
  match o with
  | Get _ => option kv_value
  | Put _ _ _ => unit
  end.

(** The namespace, read and written one key at a time.  Entries lapse
    two hours after their last write at the earliest, when the handler
    already treats them as a closed window. *)
Definition exec (o : op) (st : gmap string kv_value) : gmap string kv_value * Res o :=
  match o with
  | Get key => (st, st !! key)
  | Put key v _ => (<[key := v]> st, tt)
  end.

Inductive payload : Type :=
| InvalidSlug
| Forbidden
| RateLimitExceeded
| Count (count : Js.num)
| CountSuccess (count : Js.num)
| InternalError.

Record response : Type := { status : Z; json : payload }.

Definition handler := prog op Res response.

(** [parseInt(text || '0', 10)] of a stored counter: the integer part of
    the number that was written (below 1e21, where the text is plain
    decimal); NaN for the text of a non-finite number or of a record. *)
Definition parseCount (v : option kv_value) : Js.num :=
  match v with
  | None => Js.Fin 0
  | Some (KvCount (Js.Fin q)) =>
      Js.of_Z (if Js.Qleb 0 q then Qfloor q else Qceiling q)
  | Some _ => Js.NaN
  end.

(** GET /claps/:slug *)
Definition get (req : Request) : handler :=
  if negb (isValidSlug (slug req)) then
    Ret {| status := 400; json := InvalidSlug |}
  else
    let key := getClapKey (slug req) in
    let* count := await Get key in
    Ret {| status := 200; json := Count (parseCount count) |}.

(** [Math.min(Math.max(body.count || 1, 1), 10)] *)
Definition incrementBy (count : Js.value) : Js.num :=
  let v := if Js.truthy count then count else Js.VNum (Js.Fin 1) in
  Js.min (Js.max (Js.Number v) (Js.Fin 1)) (Js.Fin 10).

(** The record the limiter works on: the stored one, or a fresh one when
    there is none or its window has lapsed. *)
Definition rlData (stored : option (Q * Z)) (now : Z) : Q * Z :=
  match stored with
  | None => (0%Q, now)
  | Some (count, start) =>
      if RATE_LIMIT_WINDOW_MS <? now - start then (0%Q, now) else (count, start)
  end.

(** JSON.stringify writes a non-finite count as null, which reads back
    as 0 in the additions of the handler. *)
Definition stored_count (n : Js.num) : Q :=
  match n with Js.Fin q => q | _ => 0%Q end.

(** POST /claps/:slug *)
Definition post (env : Env) (req : Request) : handler :=
  if negb (isValidSlug (slug req)) then
    Ret {| status := 400; json := InvalidSlug |}
  else
  let allowedOrigins := getAllowedOrigins env in
  if match origin req with
     | Some origin => negb (String.eqb origin "") && negb (has allowedOrigins origin)
     | None => false
     end
  then Ret {| status := 403; json := Forbidden |}
  else
  let ip := getClientIp req in
  match match body req with
        | Js.BodyInvalid => Some (Js.VNum (Js.Fin 1))   (* catch: { count: 1 } *)
        | Js.BodyNull => None                           (* null.count throws *)
        | Js.BodyValue count => Some count
        end
  with
  | None => Ret {| status := 500; json := InternalError |}
  | Some count =>
      let incrementBy := incrementBy count in
      let rlKey := getRateLimitKey ip (slug req) in
      let now := now req in
      let* stored := await Get rlKey in
      match match stored with
            | None => Some None
            | Some (KvRl c s) => Some (Some (c, s))
            | Some (KvCount _) => None
            end
      with
      | None => Ret {| status := 500; json := InternalError |}
      | Some stored =>
          let '(count, start) := rlData stored now in
          if Js.gt (Js.add (Js.Fin count) incrementBy) (Js.of_Z MAX_CLAPS_PER_IP) then
            Ret {| status := 429; json := RateLimitExceeded |}
          else
            let count := Js.add (Js.Fin count) incrementBy in
            let* _ := await Put rlKey (KvRl (stored_count count) start) (Some 7200) in
            let key := getClapKey (slug req) in
            let* currentCount := await Get key in
            let currentCount := parseCount currentCount in
            let newCount := Js.add currentCount incrementBy in
            let* _ := await Put key (KvCount newCount) None in
            Ret {| status := 200; json := CountSuccess newCount |}
      end
  end.

Definition serve (p : handler) (st : gmap string kv_value)
  : response * gmap string kv_value * list op :=
  run exec p st.

(** Every operation of this worker is awaited. *)
Definition sync (o : op) : bool := false.

(** Handlers in flight at once. *)
Definition concurrent (sched : list nat) (pool : list handler)
    (st : gmap string kv_value) : list handler * gmap string kv_value :=
  interleave exec sync sched pool st.

End KV.

(** ** Notions used in the statements *)

(** The Origin check of the D1 worker's POST: the header is present, not
    empty, and one of the allowed origins. *)
Definition allowed_origin (env : Env) (req : Request) : bool :=
  match origin req with
  | Some o => negb (String.eqb o "") && has (getAllowedOrigins env) o
  | None => false
  end.

(** No row of the limiter's table is above [L]. *)
Definition within (L : Z) (d : D1.db) : Prop :=
  map_Forall (fun _ r => D1.rl_count r <= L) (D1.rate_limits d).

(** Decoding of a hexadecimal byte, used to show the rendering injective. *)
Definition hex_value (c : ascii) : N :=
  let n := N_of_ascii c in if (n <? 58)%N then n - 48 else n - 87.

Definition unhex2 (s : string) : option byte :=
  match s with
  | String a (String b EmptyString) => Byte.of_N (16 * hex_value a + hex_value b)
  | _ => None
  end.

(** The digest does not send these two messages to one value. *)
Definition collision_free_on (digest : list byte -> list byte) (x y : list byte) : Prop :=
  digest x = digest y -> x = y.


(** The characters of hexadecimal text in lower case. *)
Definition hex_char (c : ascii) : bool := in_range 48 57 c || in_range 97 102 c.

(** A text that holds no comma. *)
Definition comma_free (s : string) : bool :=
  all_chars (fun c => negb (Ascii.eqb c ",")) s.

(** No record of the KV worker's limiter is above [L]. *)
Definition kv_within (L : Z) (st : gmap string KV.kv_value) : Prop :=
  map_Forall (fun _ v => match v with
                         | KV.KvRl count _ => (count <= inject_Z L)%Q
                         | KV.KvCount _ => True
                         end) st.

(** The KV worker handling POSTs one after the other. *)
Definition kv_handle_all (env : Env) (reqs : list Request) (st : gmap string KV.kv_value)
  : gmap string KV.kv_value :=
  foldl (fun st req => (KV.serve (KV.post env req) st).1.2) st reqs.


(** The points at which a POST of the D1 worker waits for shared state:
    before the Map is written, before the batch is sent, and the answer
    it gives once the batch is back. *)
Module Suspended.
Section Points.
Variable digest : list byte -> list byte.

Definition respond (rs : list D1.result) : D1.handler :=
  match rs with
  | [rateLimitResult; clapsResult] =>
      if D1.changes rateLimitResult =? 0 then
        Ret {| D1.status := 429; D1.json := D1.RateLimitExceeded |}
      else
        let row := head (D1.results clapsResult) in
        Ret {| D1.status := 200; D1.json := D1.CountSuccess (default 0 row) |}
  | _ => Ret {| D1.status := 500; D1.json := D1.InternalError |}
  end.

Definition send_batch (env : Env) (req : Request) : D1.handler :=
  Do (D1.Batch [D1.rateLimitStmt digest env req; D1.clapsStmt env req]) respond.

Definition record_time (env : Env) (req : Request) : D1.handler :=
  Do (D1.MapSet (D1.debounceKey digest env req) (now req))
     (fun _ => send_batch env req).

Inductive stage (env : Env) (req : Request) : D1.handler -> Prop :=
| stage_start : stage env req (D1.post digest env req)
| stage_too_fast : stage env req (Ret {| D1.status := 429; D1.json := D1.TooFast |})
| stage_record : stage env req (record_time env req)
| stage_batch : stage env req (send_batch env req)
| stage_answer rs : stage env req (respond rs).

(** Where a POST can be found between two turns: not yet started,
    turned away by the debounce, waiting for its batch, or answered. *)
Inductive waiting (env : Env) (req : Request) : D1.handler -> Prop :=
| waiting_start : waiting env req (D1.post digest env req)
| waiting_too_fast : waiting env req (Ret {| D1.status := 429; D1.json := D1.TooFast |})
| waiting_batch : waiting env req (send_batch env req)
| waiting_answer rs : waiting env req (respond rs).

End Points.

(** Whether a handler has had its batch run: it has, exactly when it
    holds one of the answers given after the batch. *)
Definition counted (p : D1.handler) : bool :=
  match p with
  | Ret r =>
      match D1.json r with
      | D1.RateLimitExceeded | D1.CountSuccess _ | D1.InternalError => true
      | _ => false
      end
  | Do _ _ => false
  end.

(** Whether a handler has written its time into the Map: it has, when
    it waits for its batch or holds an answer given after the batch. *)
Definition recorded (p : D1.handler) : bool :=
  match p with
  | Do op _ => match op with D1.Batch _ => true | _ => false end
  | Ret _ => counted p
  end.

(** The time a handler has recorded is still covered by the Map. *)
Definition covered (digest : list byte -> list byte) (env : Env)
    (st : D1.state) (req : Request) (p : D1.handler) : Prop :=
  recorded p = true ->
  exists t, D1.lastRequestTime st !! D1.debounceKey digest env req = Some t /\ now req <= t.

(** No time in the Map of [st'] is earlier than it was in [st]. *)
Definition not_earlier (st st' : D1.state) : Prop :=
  forall key t, D1.lastRequestTime st !! key = Some t ->
                exists t', D1.lastRequestTime st' !! key = Some t' /\ t <= t'.

(** What the handlers of a pool have added to the counter of [s]. *)
Definition share (env : Env) (s : string) (req : Request) (p : D1.handler) : Z :=
  if counted p && String.eqb (slug req) s then D1.incrementBy env (body req) else 0.

Fixpoint total (env : Env) (s : string) (reqs : list Request) (pool : list D1.handler) : Z :=
  match reqs, pool with
  | req :: reqs', p :: pool' => share env s req p + total env s reqs' pool'
  | _, _ => 0
  end.

End Suspended.

(** * Sample requests *)
Module Sample.

Definition env : Env :=
  {| ALLOWED_ORIGINS := Some "https://blog.example";
     IP_HASH_SALT := Some "pepper";
     MAX_CLAPS_PER_IP := None;
     MAX_CLAPS_PER_REQUEST := None |}.

(** A deployment that lowers the per-client ceiling to 5. *)
Definition strict_env : Env :=
  {| ALLOWED_ORIGINS := Some "https://blog.example";
     IP_HASH_SALT := Some "pepper";
     MAX_CLAPS_PER_IP := Some "5";
     MAX_CLAPS_PER_REQUEST := None |}.


(** A deployment with the salt [salt]. *)
Definition salted (salt : string) : Env :=
  {| ALLOWED_ORIGINS := Some "https://blog.example";
     IP_HASH_SALT := Some salt;
     MAX_CLAPS_PER_IP := None;
     MAX_CLAPS_PER_REQUEST := None |}.

Definition clap (ip : string) (count : Q) (now : Z) : Request :=
  {| slug := "hello-world";
     origin := Some "https://blog.example";
     connecting_ip := Some ip;
     body := Js.BodyValue (Js.VNum (Js.Fin count));
     now := now |}.

Definition bad_slug : Request :=
  {| slug := "Hello World";
     origin := Some "https://blog.example";
     connecting_ip := Some "203.0.113.7";
     body := Js.BodyValue (Js.VNum (Js.Fin 1));
     now := 1700000000000 |}.

Definition empty : D1.state :=
  {| D1.DB := {| D1.claps := ∅; D1.rate_limits := ∅ |};
     D1.lastRequestTime := ∅ |}.

Definition t0 : Z := 1700000000000.

(** Five requests of ten claps, one second apart, from one address. *)
Definition fifty : list D1.event :=
  map (fun i => D1.POST (clap "203.0.113.7" 10 (t0 + 1000 * Z.of_nat i))) (seq 0 5).

End Sample.

(** * Properties *)

(** * Slug validation *)

Lemma isValidSlug_false (s : string) :
  isValidSlug s = false <->
  s = "" \/ (200 < String.length s)%nat \/ SLUG_RE_test s = false.
Proof.
  unfold isValidSlug, MAX_SLUG_LEN.
  destruct (String.eqb_spec s "") as [->|Hne]; simpl.
  - split; auto.
  - destruct (Nat.ltb_spec 200 (String.length s)); simpl.
    + split; auto.
    + split; [auto|]. intros [?|[?|?]]; [done|lia|done].
Qed.

(** C10: a slug that is empty, longer than 200 characters or outside the
    pattern is answered with 400 "Invalid slug" by the read and the
    increment handler of both workers, and no operation on storage (or on
    any other shared state) is performed: the state is unchanged and the
    list of operations is empty. *)
Theorem invalid_slug_rejected_before_storage
    (digest : list byte -> list byte) (env : Env) (req : Request) :
  slug req = "" \/ (200 < String.length (slug req))%nat
    \/ SLUG_RE_test (slug req) = false ->
  (forall st, D1.serve (D1.get req) st =
     ({| D1.status := 400; D1.json := D1.InvalidSlug |}, st, [])) /\
  (forall st, D1.serve (D1.post digest env req) st =
     ({| D1.status := 400; D1.json := D1.InvalidSlug |}, st, [])) /\
  (forall st, KV.serve (KV.get req) st =
     ({| KV.status := 400; KV.json := KV.InvalidSlug |}, st, [])) /\
  (forall st, KV.serve (KV.post env req) st =
     ({| KV.status := 400; KV.json := KV.InvalidSlug |}, st, [])).
Proof.
  intros H%isValidSlug_false.
  unfold D1.serve, KV.serve, D1.get, D1.post, KV.get, KV.post.
  rewrite H. simpl. repeat split; reflexivity.
Qed.

Lemma invalid_slug_rejected_before_storage_witness :
  SLUG_RE_test (slug Sample.bad_slug) = false /\
  forall st, D1.serve (D1.post Sha256.digest Sample.env Sample.bad_slug) st =
     ({| D1.status := 400; D1.json := D1.InvalidSlug |}, st, []).
Proof.
  split; [reflexivity|].
  apply (invalid_slug_rejected_before_storage Sha256.digest Sample.env Sample.bad_slug).
  right. right. reflexivity.
Defined.

(** * Debounce *)

Local Arguments D1.exec_stmt : simpl never.
Local Arguments D1.rateLimitStmt : simpl never.
Local Arguments D1.clapsStmt : simpl never.

Section Debounce.
Variable digest : list byte -> list byte.
Variable env : Env.

Local Abbreviation post := (D1.post digest env).
Local Abbreviation key := (D1.debounceKey digest env).

Lemma post_turned_away req st :
  isValidSlug (slug req) && allowed_origin env req = false ->
  exists r, D1.serve (post req) st = (r, st, []) /\ D1.status r <> 200.
Proof.
  unfold D1.serve, D1.post, allowed_origin. intros H.
  destruct (isValidSlug (slug req)); simpl in *; [|eexists; split; [reflexivity|done]].
  destruct (origin req) as [o|]; [|eexists; split; [reflexivity|done]].
  destruct (String.eqb o ""); simpl in *; [eexists; split; [reflexivity|done]|].
  rewrite H. simpl. eexists; split; [reflexivity|done].
Qed.

Lemma post_too_fast req st :
  isValidSlug (slug req) && allowed_origin env req = true ->
  now req - Js.or_default (D1.lastRequestTime st !! key req) 0 < D1.DEBOUNCE_MS ->
  D1.serve (post req) st =
    ({| D1.status := 429; D1.json := D1.TooFast |}, st, [D1.MapGet (key req)]).
Proof.
  unfold D1.serve, D1.post, allowed_origin. intros H Hlt.
  apply andb_prop in H as [-> H]. simpl.
  destruct (origin req) as [o|]; [|done].
  apply andb_prop in H as [H1 ->]. apply negb_true_iff in H1. rewrite H1. simpl.
  apply Z.ltb_lt in Hlt. rewrite Hlt. reflexivity.
Qed.

Lemma post_past_debounce req st :
  isValidSlug (slug req) && allowed_origin env req = true ->
  D1.DEBOUNCE_MS <= now req - Js.or_default (D1.lastRequestTime st !! key req) 0 ->
  D1.serve (post req) st =
    let st1 := {| D1.DB := D1.DB st;
                  D1.lastRequestTime := <[key req := now req]> (D1.lastRequestTime st) |} in
    let '(d1, r1) := D1.exec_stmt (D1.rateLimitStmt digest env req) (D1.DB st) in
    let '(d2, r2) := D1.exec_stmt (D1.clapsStmt env req) d1 in
    (if D1.changes r1 =? 0
     then {| D1.status := 429; D1.json := D1.RateLimitExceeded |}
     else {| D1.status := 200; D1.json := D1.CountSuccess (default 0 (head (D1.results r2))) |},
     {| D1.DB := d2; D1.lastRequestTime := D1.lastRequestTime st1 |},
     [D1.MapGet (key req); D1.MapSet (key req) (now req);
      D1.Batch [D1.rateLimitStmt digest env req; D1.clapsStmt env req]]).
Proof.
  unfold D1.serve, D1.post, allowed_origin. intros H Hge.
  apply andb_prop in H as [-> H]. simpl.
  destruct (origin req) as [o|]; [|done].
  apply andb_prop in H as [H1 ->]. apply negb_true_iff in H1. rewrite H1. simpl.
  apply Z.ltb_ge in Hge. rewrite Hge. simpl.
  destruct (D1.exec_stmt (D1.rateLimitStmt digest env req) (D1.DB st)) as [d1 r1].
  destruct (D1.exec_stmt (D1.clapsStmt env req) d1) as [d2 r2]. simpl.
  destruct (D1.changes r1 =? 0); reflexivity.
Qed.

(** The three ways a POST can go. *)
Lemma post_cases req st :
  (exists r, D1.serve (post req) st = (r, st, []) /\ D1.status r <> 200) \/
  D1.serve (post req) st =
    ({| D1.status := 429; D1.json := D1.TooFast |}, st, [D1.MapGet (key req)]) \/
  (D1.DEBOUNCE_MS <= now req - Js.or_default (D1.lastRequestTime st !! key req) 0 /\
   exists r d,
     D1.serve (post req) st =
       (r, {| D1.DB := d;
              D1.lastRequestTime := <[key req := now req]> (D1.lastRequestTime st) |},
        [D1.MapGet (key req); D1.MapSet (key req) (now req);
         D1.Batch [D1.rateLimitStmt digest env req; D1.clapsStmt env req]])).
Proof.
  destruct (isValidSlug (slug req) && allowed_origin env req) eqn:Hg.
  - destruct (Z.lt_ge_cases
                (now req - Js.or_default (D1.lastRequestTime st !! key req) 0)
                D1.DEBOUNCE_MS) as [Hlt|Hge].
    + right. left. by apply post_too_fast.
    + right. right. split; [done|]. rewrite post_past_debounce by done. simpl.
      destruct (D1.exec_stmt (D1.rateLimitStmt digest env req) (D1.DB st)) as [d1 r1].
      destruct (D1.exec_stmt (D1.clapsStmt env req) d1) as [d2 r2]. eauto.
  - left. by apply post_turned_away.
Qed.

Lemma or_default_0 (o : option Z) : Js.or_default o 0 = default 0 o.
Proof. destruct o as [z|]; simpl; [|done]. destruct (Z.eqb_spec z 0); congruence. Qed.

(** The time recorded for a key never moves back. *)
Lemma lastRequestTime_handle e st k t :
  D1.lastRequestTime st !! k = Some t ->
  exists t', D1.lastRequestTime (D1.handle digest env e st) !! k = Some t' /\ t <= t'.
Proof.
  intros Hk. destruct e as [req|req|n]; simpl.
  - unfold D1.serve, D1.get. destruct (negb _); simpl; eauto with lia.
  - destruct (post_cases req st) as [(r & -> & _)|[->|(Hge & r & d & ->)]]; simpl;
      eauto with lia.
    destruct (decide (key req = k)) as [<-|Hne].
    + rewrite lookup_insert_eq. rewrite Hk, or_default_0 in Hge. simpl in Hge.
      unfold D1.DEBOUNCE_MS in Hge. eauto with lia.
    + rewrite lookup_insert_ne by done. eauto with lia.
  - destruct (D1.scheduled _ _) as [[d cs]|]; simpl; eauto with lia.
Qed.

Lemma lastRequestTime_handle_all es st k t :
  D1.lastRequestTime st !! k = Some t ->
  exists t', D1.lastRequestTime (D1.handle_all digest env es st) !! k = Some t' /\ t <= t'.
Proof.
  revert st t. induction es as [|e es IH]; intros st t Hk; simpl.
  - eauto with lia.
  - destruct (lastRequestTime_handle e st k t Hk) as (t1 & H1 & Hle).
    destruct (IH _ _ H1) as (t2 & H2 & Hle2). eauto with lia.
Qed.

(** A request answered with 200 has recorded its time under its key. *)
Lemma post_accepted_recorded req st :
  D1.status (D1.serve (post req) st).1.1 = 200 ->
  D1.lastRequestTime (D1.serve (post req) st).1.2 !! key req = Some (now req).
Proof.
  destruct (post_cases req st) as [(r & -> & Hr)|[->|(Hge & r & d & ->)]]; simpl;
    [done|done|].
  intros _. apply lookup_insert_eq.
Qed.

End Debounce.

(** C7: once a request of a (client token, slug) pair has been accepted
    (answered with 200) at time t, a later POST of the same pair that
    arrives at a time now with now - t < 500 ms and passes the Origin check
    is answered 429 "Too fast", whatever calls were handled in between;
    the handler only looks up the in-process Map: no statement is sent to
    the database and the state is unchanged. *)
Theorem debounce_rejects_without_storage
    (digest : list byte -> list byte) (env : Env)
    (st0 : D1.state) (r1 : Request) (between : list D1.event) (r2 : Request) :
  D1.status (D1.serve (D1.post digest env r1) st0).1.1 = 200 ->
  D1.sha256Hex digest env (getClientIp r2) = D1.sha256Hex digest env (getClientIp r1) ->
  slug r2 = slug r1 ->
  allowed_origin env r2 = true ->
  now r2 - now r1 < D1.DEBOUNCE_MS ->
  let st1 := (D1.serve (D1.post digest env r1) st0).1.2 in
  let st2 := D1.handle_all digest env between st1 in
  D1.serve (D1.post digest env r2) st2 =
    ({| D1.status := 429; D1.json := D1.TooFast |}, st2,
     [D1.MapGet (D1.debounceKey digest env r2)]).
Proof.
  intros Hok Htok Hslug Horigin Hlt st1 st2.
  assert (Hvalid : isValidSlug (slug r2) = true).
  { rewrite Hslug. destruct (isValidSlug (slug r1)) eqn:Hv; [done|].
    destruct (post_turned_away digest env r1 st0) as (r & Hr & Hne).
    - by rewrite Hv.
    - rewrite Hr in Hok. done. }
  assert (Hkey : D1.debounceKey digest env r2 = D1.debounceKey digest env r1).
  { unfold D1.debounceKey. by rewrite Htok, Hslug. }
  pose proof (post_accepted_recorded digest env r1 st0 Hok) as Hrec.
  destruct (lastRequestTime_handle_all digest env between _ _ _ Hrec) as (t' & Ht' & Hle).
  apply post_too_fast.
  - by rewrite Hvalid, Horigin.
  - fold st1 in Ht'. fold st2 in Ht'. rewrite Hkey, Ht', or_default_0. simpl. lia.
Qed.

Lemma debounce_rejects_without_storage_witness :
  let first := Sample.clap "203.0.113.7" 3 Sample.t0 in
  let other := D1.POST (Sample.clap "198.51.100.9" 1 (Sample.t0 + 100)) in
  let again := Sample.clap "203.0.113.7" 1 (Sample.t0 + 499) in
  let st1 := (D1.serve (D1.post Sha256.digest Sample.env first) Sample.empty).1.2 in
  let st2 := D1.handle_all Sha256.digest Sample.env [other] st1 in
  D1.status (D1.serve (D1.post Sha256.digest Sample.env first) Sample.empty).1.1 = 200 /\
  D1.serve (D1.post Sha256.digest Sample.env again) st2 =
    ({| D1.status := 429; D1.json := D1.TooFast |}, st2,
     [D1.MapGet (D1.debounceKey Sha256.digest Sample.env again)]).
Proof.
  split; [vm_compute; reflexivity|].
  apply (debounce_rejects_without_storage Sha256.digest Sample.env Sample.empty
           (Sample.clap "203.0.113.7" 3 Sample.t0)
           [D1.POST (Sample.clap "198.51.100.9" 1 (Sample.t0 + 100))]
           (Sample.clap "203.0.113.7" 1 (Sample.t0 + 499)));
    vm_compute; reflexivity.
Defined.

(** * The counter under rate limiting *)

Lemma exec_rate_limit_claps ip_hash slug ws count updated limit d :
  D1.claps (D1.exec_stmt (D1.UpsertRateLimit ip_hash slug ws count updated limit) d).1
  = D1.claps d.
Proof.
  unfold D1.exec_stmt. destruct (D1.rate_limits d !! _) as [r|]; [|done].
  by destruct (_ <=? _).
Qed.

Lemma exec_claps_lookup slug count updated d :
  D1.claps (D1.exec_stmt (D1.UpsertClaps slug count updated) d).1 !! slug =
  Some {| D1.claps_count :=
            match D1.claps d !! slug with
            | Some r => D1.claps_count r + count
            | None => count
            end;
          D1.claps_updated_at := updated |}.
Proof. simpl. apply lookup_insert_eq. Qed.

Lemma exec_claps_lookup_ne slug slug' count updated d :
  slug <> slug' ->
  D1.claps (D1.exec_stmt (D1.UpsertClaps slug count updated) d).1 !! slug' =
  D1.claps d !! slug'.
Proof. intros. simpl. by apply lookup_insert_ne. Qed.

(** Whenever the batch of a POST runs, the counter of its slug grows by
    the increment, whether the limiter changed a row or not. *)
Lemma post_batch_counts digest env req st :
  In (D1.Batch [D1.rateLimitStmt digest env req; D1.clapsStmt env req])
     (D1.serve (D1.post digest env req) st).2 ->
  D1.count_of (D1.serve (D1.post digest env req) st).1.2 (slug req) =
  D1.count_of st (slug req) + D1.incrementBy env (body req).
Proof.
  destruct (post_cases digest env req st) as [(r & -> & _)|[->|(Hge & r & d & Heq)]];
    simpl; [done|intros [?|[]]; done|].
  intros _.
  destruct (isValidSlug (slug req) && allowed_origin env req) eqn:Hg.
  2:{ destruct (post_turned_away digest env req st Hg) as (r' & Hr' & _).
      rewrite Hr' in Heq. done. }
  rewrite post_past_debounce by done. cbv zeta.
  pose proof (exec_rate_limit_claps
                (D1.sha256Hex digest env (getClientIp req)) (slug req)
                (D1.windowStart (now req)) (D1.incrementBy env (body req)) (now req)
                (D1.getMaxClapsPerIp env) (D1.DB st)) as Hc.
  fold (D1.rateLimitStmt digest env req) in Hc.
  destruct (D1.exec_stmt (D1.rateLimitStmt digest env req) (D1.DB st)) as [d1 r1].
  simpl in Hc.
  pose proof (exec_claps_lookup (slug req) (D1.incrementBy env (body req)) (now req) d1) as Hl.
  fold (D1.clapsStmt env req) in Hl.
  destruct (D1.exec_stmt (D1.clapsStmt env req) d1) as [d2 r2]. simpl in Hl.
  unfold D1.count_of. simpl. rewrite Hl, Hc. simpl.
  destruct (D1.claps (D1.DB st) !! slug req); simpl; lia.
Qed.

Lemma post_rate_limited_ran_batch digest env req st :
  D1.json (D1.serve (D1.post digest env req) st).1.1 = D1.RateLimitExceeded ->
  In (D1.Batch [D1.rateLimitStmt digest env req; D1.clapsStmt env req])
     (D1.serve (D1.post digest env req) st).2.
Proof.
  destruct (isValidSlug (slug req) && allowed_origin env req) eqn:Hg.
  - destruct (Z.lt_ge_cases
                (now req - Js.or_default
                             (D1.lastRequestTime st !! D1.debounceKey digest env req) 0)
                D1.DEBOUNCE_MS) as [Hlt|Hge].
    + rewrite post_too_fast by done. done.
    + rewrite post_past_debounce by done. simpl.
      destruct (D1.exec_stmt (D1.rateLimitStmt digest env req) (D1.DB st)) as [d1 r1].
      destruct (D1.exec_stmt (D1.clapsStmt env req) d1) as [d2 r2]. simpl. auto.
  - unfold D1.serve, D1.post, allowed_origin in *.
    destruct (isValidSlug (slug req)); simpl in *; [|done].
    destruct (origin req) as [o|]; [|done].
    destruct (String.eqb o ""); simpl in *; [done|]. rewrite Hg. done.
Qed.

(** The D1 worker in general: a POST answered "Rate limit exceeded" has
    added its increment to the counter all the same. *)
Lemma post_rate_limited_counts digest env req st :
  D1.json (D1.serve (D1.post digest env req) st).1.1 = D1.RateLimitExceeded ->
  D1.count_of (D1.serve (D1.post digest env req) st).1.2 (slug req) =
  D1.count_of st (slug req) + D1.incrementBy env (body req).
Proof. intros H. by apply post_batch_counts, post_rate_limited_ran_batch. Qed.

(** X1: on the KV worker a POST turned away by the limiter leaves the
    namespace as it was; it has only read the limiter's record. *)
Lemma kv_post_rate_limited_untouched env req st :
  KV.json (KV.serve (KV.post env req) st).1.1 = KV.RateLimitExceeded ->
  (KV.serve (KV.post env req) st).1.2 = st /\
  (KV.serve (KV.post env req) st).2 =
    [KV.Get (KV.getRateLimitKey (getClientIp req) (slug req))].
Proof.
  unfold KV.serve, KV.post.
  destruct (negb (isValidSlug (slug req))); [done|].
  destruct (match origin req with Some _ => _ | None => _ end); [done|].
  destruct (match body req with Js.BodyInvalid => _ | _ => _ end) as [count|]; [|done].
  simpl.
  destruct (match st !! _ with Some _ => _ | None => _ end) as [stored|]; [|done].
  destruct (KV.rlData stored (now req)) as [c s].
  destruct (Js.gt _ _); simpl; done.
Qed.

(** C1 (the D1 worker breaks it): after five accepted requests of ten
    claps have used up the ceiling of 50, a sixth request of the same client
    is answered 429 "Rate limit exceeded", and the counter of the slug
    still moves from 50 to 51. *)
Theorem rate_limited_post_still_counts :
  let st := D1.handle_all Sha256.digest Sample.env Sample.fifty Sample.empty in
  let sixth := Sample.clap "203.0.113.7" 1 (Sample.t0 + 5000) in
  let out := D1.serve (D1.post Sha256.digest Sample.env sixth) st in
  D1.count_of st "hello-world" = 50 /\
  out.1.1 = {| D1.status := 429; D1.json := D1.RateLimitExceeded |} /\
  D1.count_of out.1.2 "hello-world" = 51.
Proof. vm_compute. repeat split; reflexivity. Qed.

(** * The window compactor *)

Section Compactor.
Implicit Types t : gmap (string * string * Z) D1.rate_limits_row.
Implicit Types rows : list (string * string * Z * D1.rate_limits_row).

Lemma delete_rows_lookup rows t k :
  D1.delete_rows rows t !! k = if decide (k ∈ rows.*1) then None else t !! k.
Proof.
  induction rows as [|[k' r] rows IH].
  - destruct (decide (k ∈ ([] : list _).*1)) as [Hin|_]; [|done].
    by apply elem_of_nil in Hin.
  - change (D1.delete_rows ((k', r) :: rows) t) with (delete k' (D1.delete_rows rows t)).
    rewrite lookup_delete, fmap_cons. simpl.
    destruct (decide (k' = k)) as [->|Hne].
    + rewrite decide_True; [done|]. apply elem_of_cons; auto.
    + rewrite IH. destruct (decide (k ∈ rows.*1)) as [Hin|Hn].
      * rewrite decide_True; [done|]. apply elem_of_cons; auto.
      * rewrite decide_False; [done|]. intros [?|?]%elem_of_cons; congruence.
Qed.

Lemma select_expired_elem cutoff limit t kv :
  kv ∈ D1.select_expired cutoff limit t ->
  t !! kv.1 = Some kv.2 /\ kv.1.2 < cutoff.
Proof.
  unfold D1.select_expired. intros Hin%subseteq_take.
  rewrite merge_sort_Permutation in Hin.
  apply list_elem_of_filter in Hin as [Hlt Hin].
  destruct kv as [k r]. by apply elem_of_map_to_list in Hin.
Qed.

Lemma select_expired_length cutoff limit t :
  (length (D1.select_expired cutoff limit t) <= Z.to_nat limit)%nat.
Proof. unfold D1.select_expired. rewrite length_take. lia. Qed.

(** A batch that comes back short has taken every expired row. *)
Lemma select_expired_short cutoff limit t k r :
  (length (D1.select_expired cutoff limit t) < Z.to_nat limit)%nat ->
  t !! k = Some r -> k.2 < cutoff ->
  (k, r) ∈ D1.select_expired cutoff limit t.
Proof.
  unfold D1.select_expired. intros Hlen Hk Hlt.
  rewrite length_take in Hlen. rewrite take_ge by lia.
  rewrite merge_sort_Permutation. apply list_elem_of_filter. split; [done|].
  by apply elem_of_map_to_list.
Qed.

Lemma delete_rows_subseteq rows t : D1.delete_rows rows t ⊆ t.
Proof.
  apply map_subseteq_spec. intros k r. rewrite delete_rows_lookup.
  by case_decide.
Qed.

Lemma delete_selected_kept cutoff limit t k :
  cutoff <= k.2 ->
  D1.delete_rows (D1.select_expired cutoff limit t) t !! k = t !! k.
Proof.
  intros Hge. rewrite delete_rows_lookup. case_decide as Hin; [|done].
  apply list_elem_of_fmap in Hin as (kv & -> & Hin).
  apply select_expired_elem in Hin as [_ Hlt]. lia.
Qed.

Lemma delete_selected_size cutoff limit t :
  D1.select_expired cutoff limit t <> [] ->
  (size (D1.delete_rows (D1.select_expired cutoff limit t) t) < size t)%nat.
Proof.
  destruct (D1.select_expired cutoff limit t) as [|kv rows] eqn:Hsel; [done|].
  intros _. simpl.
  assert (Hin : kv ∈ D1.select_expired cutoff limit t)
    by (rewrite Hsel; apply elem_of_cons; auto).
  apply select_expired_elem in Hin as [Hk _].
  apply Nat.le_lt_trans with (size (delete kv.1 t)).
  - apply map_subseteq_size, map_subseteq_spec. intros k r.
    rewrite !lookup_delete. case_decide; [done|].
    rewrite delete_rows_lookup. by case_decide.
  - apply map_subset_size, delete_subset. eauto.
Qed.

(** The loop, for any fuel above the size of the table. *)
Lemma scheduled_loop_spec fuel cutoff d :
  (size (D1.rate_limits d) < fuel)%nat ->
  exists d' cs last,
    D1.scheduled_loop fuel cutoff d = Some (d', (cs ++ [last])%list) /\
    D1.rate_limits d' = filter (fun kv => cutoff <= kv.1.2) (D1.rate_limits d) /\
    D1.claps d' = D1.claps d /\
    Forall (fun c => c = D1.BATCH_SIZE) cs /\
    0 <= last < D1.BATCH_SIZE.
Proof.
  revert d. induction fuel as [|fuel IH]; intros d Hsize; [lia|].
  simpl.
  set (rows := D1.select_expired cutoff D1.BATCH_SIZE (D1.rate_limits d)).
  pose proof (select_expired_length cutoff D1.BATCH_SIZE (D1.rate_limits d)) as Hlen.
  fold rows in Hlen. change (Z.to_nat D1.BATCH_SIZE) with 1000%nat in Hlen.
  destruct (Z.ltb_spec (Z.of_nat (length rows)) D1.BATCH_SIZE) as [Hshort|Hfull].
  - exists {| D1.claps := D1.claps d;
              D1.rate_limits := D1.delete_rows rows (D1.rate_limits d) |},
           [], (Z.of_nat (length rows)).
    repeat split; simpl; [|constructor|lia|done].
    apply map_eq. intros k.
    destruct (Z.le_gt_cases cutoff k.2) as [Hge|Hlt].
    + unfold rows. rewrite delete_selected_kept by done.
      destruct (D1.rate_limits d !! k) as [r|] eqn:Hk.
      * symmetry. by apply map_lookup_filter_Some.
      * symmetry. apply map_lookup_filter_None. left. done.
    + rewrite delete_rows_lookup.
      transitivity (@None D1.rate_limits_row).
      * case_decide as Hin; [done|].
        destruct (D1.rate_limits d !! k) as [r|] eqn:Hk; [|done].
        exfalso. apply Hin. apply list_elem_of_fmap. exists (k, r). split; [done|].
        apply select_expired_short; [|done|lia].
        fold rows. change (Z.to_nat D1.BATCH_SIZE) with 1000%nat.
        unfold D1.BATCH_SIZE in Hshort. lia.
      * symmetry. apply map_lookup_filter_None. right. intros r _. simpl. lia.
  - set (d1 := {| D1.claps := D1.claps d;
                  D1.rate_limits := D1.delete_rows rows (D1.rate_limits d) |}).
    assert (Hne : rows <> []).
    { intros Heq. rewrite Heq in Hfull. unfold D1.BATCH_SIZE in Hfull. simpl in Hfull. lia. }
    pose proof (delete_selected_size cutoff D1.BATCH_SIZE (D1.rate_limits d) Hne) as Hdec.
    destruct (IH d1) as (d' & cs & last & Hloop & Hrl & Hcl & Hcs & Hlast).
    { simpl. fold rows in Hdec. lia. }
    rewrite Hloop. exists d', (Z.of_nat (length rows) :: cs), last.
    split; [done|]. split; [|split; [by rewrite Hcl|split; [|lia]]].
    + rewrite Hrl. simpl. apply map_eq. intros k.
      rewrite !map_lookup_filter. rewrite delete_rows_lookup.
      case_decide as Hin; [|done].
      apply list_elem_of_fmap in Hin as (kv & -> & Hin).
      apply select_expired_elem in Hin as [Hk Hlt]. rewrite Hk. simpl.
      rewrite option_guard_False; [done|]. simpl. lia.
    + constructor; [|done]. unfold D1.BATCH_SIZE in *. lia.
Qed.

(** What every run does to the two tables, in short. *)
Lemma scheduled_effect now d :
  exists d' cs,
    D1.scheduled now d = Some (d', cs) /\
    D1.claps d' = D1.claps d /\
    D1.rate_limits d' ⊆ D1.rate_limits d.
Proof.
  unfold D1.scheduled.
  destruct (scheduled_loop_spec (S (size (D1.rate_limits d)))
              (now - 2 * 60 * 60 * 1000) d) as (d' & cs & last & H1 & H2 & H3 & _);
    [lia|].
  exists d', (cs ++ [last])%list. split; [done|]. split; [done|].
  rewrite H2. apply map_filter_subseteq.
Qed.

End Compactor.

(** C9: a run of the compactor started at time now ends, and leaves the
    rate_limits table holding exactly the rows whose window_start is at or
    after now - 2W (those rows unchanged, every older row gone); the claps
    table is untouched.  The rows go in batches: each batch but the last
    deletes 1000 rows, and the loop stops with the first batch that deletes
    fewer than 1000. *)
Theorem compactor_deletes_exactly_expired (now : Z) (d : D1.db) :
  exists d' full last,
    D1.scheduled now d = Some (d', (full ++ [last])%list) /\
    D1.rate_limits d' =
      filter (fun kv => now - 2 * D1.RATE_LIMIT_WINDOW_MS <= kv.1.2) (D1.rate_limits d) /\
    D1.claps d' = D1.claps d /\
    Forall (fun c => c = 1000) full /\
    0 <= last < 1000.
Proof.
  unfold D1.scheduled.
  destruct (scheduled_loop_spec (S (size (D1.rate_limits d)))
              (now - 2 * 60 * 60 * 1000) d) as (d' & cs & last & H1 & H2 & H3 & H4 & H5);
    [lia|].
  exists d', cs, last.
  split; [done|]. split; [|split; [done|split; [done|]]].
  - rewrite H2. unfold D1.RATE_LIMIT_WINDOW_MS.
    replace (now - 2 * (60 * 60 * 1000)) with (now - 2 * 60 * 60 * 1000) by lia. done.
  - unfold D1.BATCH_SIZE in H5. lia.
Qed.

(** * The per-window ceiling *)

Lemma exec_rate_limit_within ip_hash slug ws count updated limit d :
  count <= limit -> within limit d ->
  within limit (D1.exec_stmt (D1.UpsertRateLimit ip_hash slug ws count updated limit) d).1.
Proof.
  intros Hc Hd. unfold D1.exec_stmt.
  destruct (D1.rate_limits d !! (ip_hash, slug, ws)) as [r|] eqn:Hk.
  - destruct (Z.leb_spec (D1.rl_count r + count) limit); [|done].
    apply map_Forall_insert_2; done.
  - apply map_Forall_insert_2; done.
Qed.

(** An update that would bring an existing row above the ceiling changes
    nothing. *)
Lemma rate_limit_update_guarded ip_hash slug ws count updated limit d r :
  D1.rate_limits d !! (ip_hash, slug, ws) = Some r ->
  limit < D1.rl_count r + count ->
  D1.exec_stmt (D1.UpsertRateLimit ip_hash slug ws count updated limit) d =
    (d, {| D1.changes := 0; D1.results := [] |}).
Proof.
  intros Hk Hlt. unfold D1.exec_stmt. rewrite Hk.
  destruct (Z.leb_spec (D1.rl_count r + count) limit); [lia|done].
Qed.

Lemma incrementBy_le env b : D1.incrementBy env b <= D1.getMaxClapsPerRequest env.
Proof. unfold D1.incrementBy. lia. Qed.

(** The D1 worker when the per-request ceiling does not exceed the
    per-client one (as with the defaults 10 and 50): no call brings a
    stored count above the ceiling. *)
Lemma rate_limits_within digest env e st :
  D1.getMaxClapsPerRequest env <= D1.getMaxClapsPerIp env ->
  within (D1.getMaxClapsPerIp env) (D1.DB st) ->
  within (D1.getMaxClapsPerIp env) (D1.DB (D1.handle digest env e st)).
Proof.
  intros HRL Hw. destruct e as [req|req|n]; simpl.
  - unfold D1.serve, D1.get. destruct (negb _); simpl; done.
  - destruct (isValidSlug (slug req) && allowed_origin env req) eqn:Hg.
    2:{ destruct (post_turned_away digest env req st Hg) as (r & -> & _). done. }
    destruct (Z.lt_ge_cases
                (now req - Js.or_default
                             (D1.lastRequestTime st !! D1.debounceKey digest env req) 0)
                D1.DEBOUNCE_MS) as [Hlt|Hge].
    { rewrite post_too_fast by done. done. }
    rewrite post_past_debounce by done. cbv zeta.
    pose proof (exec_rate_limit_within
                  (D1.sha256Hex digest env (getClientIp req)) (slug req)
                  (D1.windowStart (now req)) (D1.incrementBy env (body req)) (now req)
                  (D1.getMaxClapsPerIp env) (D1.DB st)) as Hrl.
    fold (D1.rateLimitStmt digest env req) in Hrl.
    destruct (D1.exec_stmt (D1.rateLimitStmt digest env req) (D1.DB st)) as [d1 r1].
    unfold D1.clapsStmt. simpl. apply Hrl; [|done].
    pose proof (incrementBy_le env (body req)). lia.
  - destruct (scheduled_effect n (D1.DB st)) as (d' & cs & -> & _ & Hsub). simpl.
    intros k r Hk. apply (Hw k). by eapply lookup_weaken.
Qed.

(** C2 (the D1 worker breaks it): with the ceiling configured as 5 and
    the per-request ceiling left at its default 10, the first request of a
    client in a window, asking for 10, is accepted and its row is created
    with count 10: the guard of the statement applies to the update of an
    existing row only. *)
Theorem first_insert_exceeds_ceiling :
  let first := Sample.clap "203.0.113.7" 10 Sample.t0 in
  let out := D1.serve (D1.post Sha256.digest Sample.strict_env first) Sample.empty in
  let token := D1.sha256Hex Sha256.digest Sample.strict_env "203.0.113.7" in
  D1.getMaxClapsPerIp Sample.strict_env = 5 /\
  out.1.1 = {| D1.status := 200; D1.json := D1.CountSuccess 10 |} /\
  D1.rate_limits (D1.DB out.1.2) !! (token, "hello-world", D1.windowStart Sample.t0) =
    Some {| D1.rl_count := 10; D1.rl_updated_at := Sample.t0 |}.
Proof. vm_compute. repeat split; reflexivity. Qed.

(** * The increment *)

Lemma incrementBy_clamped env b :
  1 <= D1.getMaxClapsPerRequest env ->
  1 <= D1.incrementBy env b <= D1.getMaxClapsPerRequest env.
Proof. unfold D1.incrementBy. lia. Qed.

Lemma incrementBy_floor env (q : Q) :
  (1 <= q)%Q -> (q <= inject_Z (D1.getMaxClapsPerRequest env))%Q ->
  D1.incrementBy env (Js.BodyValue (Js.VNum (Js.Fin q))) = Qfloor q.
Proof.
  intros H1 H2. unfold D1.incrementBy. simpl.
  apply Qfloor_resp_le in H1, H2. rewrite Qfloor_Z in H2.
  change (Qfloor 1) with 1 in H1. lia.
Qed.

Lemma incrementBy_default env b :
  1 <= D1.getMaxClapsPerRequest env ->
  b = Js.BodyInvalid \/ b = Js.BodyNull \/ b = Js.BodyValue Js.VUndefined \/
  (exists v, b = Js.BodyValue v /\
             (Js.Number v = Js.NaN \/ Js.Number v = Js.PInf \/ Js.Number v = Js.NInf)) ->
  D1.incrementBy env b = 1.
Proof.
  intros HR H. unfold D1.incrementBy.
  assert (D1.requested b = 1%Q) as ->.
  { destruct H as [->|[->|[->|(v & -> & [H|[H|H]])]]]; simpl; try done; by rewrite H. }
  change (Qfloor 1) with 1. lia.
Qed.

Lemma getMaxClapsPerRequest_default env :
  MAX_CLAPS_PER_REQUEST env = None -> D1.getMaxClapsPerRequest env = 10.
Proof. unfold D1.getMaxClapsPerRequest. by intros ->. Qed.

(** The D1 worker on the amounts the specification names. *)
Lemma incrementBy_examples env :
  let R := D1.getMaxClapsPerRequest env in
  let amount (q : Q) := D1.incrementBy env (Js.BodyValue (Js.VNum (Js.Fin q))) in
  3 <= R <= 999 ->
  amount 0%Q = 1 /\ amount (-5)%Q = 1 /\ amount 999%Q = R /\ amount (37 # 10)%Q = 3.
Proof.
  intros R amount HR. subst amount. unfold D1.incrementBy. fold R.
  cbn [D1.requested Js.Number Js.optional_count].
  change (Qfloor 0) with 0. change (Qfloor (-5)) with (-5).
  change (Qfloor 999) with 999. change (Qfloor (37 # 10)) with 3. clearbody R. lia.
Qed.

(** C3 (the KV worker breaks it): asked for 3.7, the KV worker applies
    3.7: the amount is clamped to [1, 10] but not floored, and the counter
    and the limiter's record both move by 3.7; asked for the text "many",
    it applies NaN and not 1.  The D1 worker applies 3 and 1. *)
Theorem kv_amount_not_floored :
  let request := Sample.clap "203.0.113.7" (37 # 10) Sample.t0 in
  let out := KV.serve (KV.post Sample.env request) ∅ in
  let many := Js.VStr "many" Js.NaN in
  KV.incrementBy (Js.VNum (Js.Fin (37 # 10))) = Js.Fin (37 # 10) /\
  out.1.1 = {| KV.status := 200; KV.json := KV.CountSuccess (Js.Fin (37 # 10)) |} /\
  out.1.2 !! "claps:hello-world" = Some (KV.KvCount (Js.Fin (37 # 10))) /\
  KV.incrementBy many = Js.NaN /\
  D1.incrementBy Sample.env (body request) = 3 /\
  D1.incrementBy Sample.env (Js.BodyValue many) = 1.
Proof. vm_compute. repeat split; reflexivity. Qed.

(** * The window *)

Lemma windowStart_spec (now : Z) :
  let w := D1.windowStart now in
  w <= now < w + D1.RATE_LIMIT_WINDOW_MS /\ w mod D1.RATE_LIMIT_WINDOW_MS = 0.
Proof.
  unfold D1.windowStart, D1.RATE_LIMIT_WINDOW_MS.
  change (60 * 60 * 1000) with 3600000. cbv zeta.
  split; [|apply Z.mod_mul; lia].
  pose proof (Z.mul_div_le now 3600000 eq_refl).
  pose proof (Z.mul_succ_div_gt now 3600000 eq_refl). lia.
Qed.

(** Two instants share a window exactly when they fall in the same hour
    counted from the epoch, whatever was stored before. *)
Lemma windowStart_same (a b : Z) :
  D1.windowStart a = D1.windowStart b <->
  a / D1.RATE_LIMIT_WINDOW_MS = b / D1.RATE_LIMIT_WINDOW_MS.
Proof.
  unfold D1.windowStart, D1.RATE_LIMIT_WINDOW_MS.
  change (60 * 60 * 1000) with 3600000. split; [|by intros ->].
  intros H. apply (f_equal (fun x => x / 3600000)) in H.
  by rewrite !Z.div_mul in H by lia.
Qed.

Lemma post_window digest env req :
  exists ip_hash count limit,
    D1.rateLimitStmt digest env req =
    D1.UpsertRateLimit ip_hash (slug req)
      (now req / (60 * 60 * 1000) * (60 * 60 * 1000)) count (now req) limit.
Proof. unfold D1.rateLimitStmt. eauto. Qed.

Lemma kv_keys_differ ip slug slug' : KV.getRateLimitKey ip slug <> KV.getClapKey slug'.
Proof. done. Qed.

(** The KV worker: the record an accepted POST leaves under its key. *)
Lemma kv_post_accepted_record env req st :
  KV.status (KV.serve (KV.post env req) st).1.1 = 200 ->
  let key := KV.getRateLimitKey (getClientIp req) (slug req) in
  exists count start,
    (KV.serve (KV.post env req) st).1.2 !! key = Some (KV.KvRl count start) /\
    start = match st !! key with
            | Some (KV.KvRl _ opened) =>
                if 60 * 60 * 1000 <? now req - opened then now req else opened
            | _ => now req
            end.
Proof.
  unfold KV.serve, KV.post.
  destruct (negb (isValidSlug (slug req))); [done|].
  destruct (match origin req with Some _ => _ | None => _ end); [done|].
  destruct (match body req with Js.BodyInvalid => _ | _ => _ end) as [count|]; [|done].
  cbn [run KV.exec].
  destruct (st !! KV.getRateLimitKey (getClientIp req) (slug req)) as [[n|c opened]|];
    [done| |].
  - unfold KV.rlData. fold KV.RATE_LIMIT_WINDOW_MS.
    destruct (KV.RATE_LIMIT_WINDOW_MS <? now req - opened);
      (destruct (Js.gt _ _); [done|]); intros _; cbn [run KV.exec fst snd];
      rewrite lookup_insert_ne by (apply not_eq_sym, kv_keys_differ);
      rewrite lookup_insert_eq; eauto.
  - unfold KV.rlData. destruct (Js.gt _ _); [done|]. intros _. cbn [run KV.exec fst snd].
    rewrite lookup_insert_ne by (apply not_eq_sym, kv_keys_differ).
    rewrite lookup_insert_eq. eauto.
Qed.

(** C4, as stated, fails on the KV worker: it opens a client's window at
    the time of the client's first request (1700000000000), which is not
    floor(now / W) * W (1699999200000); a request 59 minutes later, which
    lies in the next aligned hour, is charged to that same window. *)
Lemma kv_window_starts_at_first_request :
  let first := Sample.clap "203.0.113.7" 1 Sample.t0 in
  let later := Sample.clap "203.0.113.7" 1 (Sample.t0 + 59 * 60 * 1000) in
  let st1 := (KV.serve (KV.post Sample.env first) ∅).1.2 in
  let st2 := (KV.serve (KV.post Sample.env later) st1).1.2 in
  st1 !! "rl:203.0.113.7:hello-world" = Some (KV.KvRl 1 1700000000000) /\
  st2 !! "rl:203.0.113.7:hello-world" = Some (KV.KvRl 2 1700000000000) /\
  1700000000000 <> now first / (60 * 60 * 1000) * (60 * 60 * 1000) /\
  1700000000000 <> now later / (60 * 60 * 1000) * (60 * 60 * 1000).
Proof. vm_compute. repeat split; congruence. Qed.

(** C4, amended.  The D1 worker charges a request arriving at time now
    to the window starting at floor(now / W) * W, W being one hour: the
    windows are aligned, do not overlap, and do not depend on earlier
    requests.  The KV worker charges an accepted request to the window
    its stored record opened, if that was at most W ago, and otherwise it
    opens a window at the arrival time of the request itself. *)
Theorem window_of_each_worker :
  (forall digest env req,
     let w := now req / (60 * 60 * 1000) * (60 * 60 * 1000) in
     (exists ip_hash count limit,
        D1.rateLimitStmt digest env req =
        D1.UpsertRateLimit ip_hash (slug req) w count (now req) limit) /\
     w <= now req < w + 60 * 60 * 1000 /\
     w mod (60 * 60 * 1000) = 0) /\
  (forall env req st,
     KV.status (KV.serve (KV.post env req) st).1.1 = 200 ->
     let key := KV.getRateLimitKey (getClientIp req) (slug req) in
     exists count start,
       (KV.serve (KV.post env req) st).1.2 !! key = Some (KV.KvRl count start) /\
       start = match st !! key with
               | Some (KV.KvRl _ opened) =>
                   if 60 * 60 * 1000 <? now req - opened then now req else opened
               | _ => now req
               end).
Proof.
  split.
  - intros digest env req w. split; [apply post_window|]. apply windowStart_spec.
  - apply kv_post_accepted_record.
Qed.

Lemma window_of_each_worker_witness :
  let first := Sample.clap "203.0.113.7" 1 Sample.t0 in
  let later := Sample.clap "203.0.113.7" 1 (Sample.t0 + 59 * 60 * 1000) in
  let st1 := (KV.serve (KV.post Sample.env first) ∅).1.2 in
  KV.status (KV.serve (KV.post Sample.env later) st1).1.1 = 200 /\
  exists count start,
    (KV.serve (KV.post Sample.env later) st1).1.2 !! "rl:203.0.113.7:hello-world" =
      Some (KV.KvRl count start) /\
    start = 1700000000000.
Proof.
  split; [vm_compute; reflexivity|].
  destruct (proj2 window_of_each_worker Sample.env
              (Sample.clap "203.0.113.7" 1 (Sample.t0 + 59 * 60 * 1000))
              (KV.serve (KV.post Sample.env (Sample.clap "203.0.113.7" 1 Sample.t0)) ∅).1.2)
    as (count & start & Hrec & Hstart); [vm_compute; reflexivity|].
  exists count, start. split; [exact Hrec|]. rewrite Hstart. vm_compute. reflexivity.
Defined.

(** * The identity hasher *)

Lemma unhex2_hex (b : byte) : unhex2 (padStart2 (toString16 b)) = Some b.
Proof. destruct b; vm_compute; reflexivity. Qed.

Lemma hex2_shape (b : byte) :
  exists c1 c2, padStart2 (toString16 b) = String c1 (String c2 EmptyString).
Proof.
  unfold toString16, padStart2.
  destruct (Byte.to_N b <? 16)%N; simpl; eauto.
Qed.

Lemma hex_of_bytes_cons (b : byte) (bs : list byte) :
  hex_of_bytes (b :: bs) = padStart2 (toString16 b) +:+ hex_of_bytes bs.
Proof.
  unfold hex_of_bytes. simpl. destruct bs as [|b' bs]; simpl.
  - destruct (hex2_shape b) as (c1 & c2 & ->). reflexivity.
  - reflexivity.
Qed.

Lemma hex_of_bytes_inj (xs ys : list byte) :
  hex_of_bytes xs = hex_of_bytes ys -> xs = ys.
Proof.
  revert ys. induction xs as [|x xs IH]; intros [|y ys].
  - done.
  - rewrite hex_of_bytes_cons. destruct (hex2_shape y) as (c1 & c2 & ->). done.
  - rewrite hex_of_bytes_cons. destruct (hex2_shape x) as (c1 & c2 & ->). done.
  - rewrite !hex_of_bytes_cons.
    pose proof (unhex2_hex x) as Hx. pose proof (unhex2_hex y) as Hy.
    destruct (hex2_shape x) as (a1 & a2 & Ex). destruct (hex2_shape y) as (b1 & b2 & Ey).
    rewrite Ex, Ey in *. simpl. intros [= -> -> Hrest].
    rewrite Hx in Hy. injection Hy as ->. f_equal. by apply IH.
Qed.

Lemma encode_inj (s1 s2 : string) : encode s1 = encode s2 -> s1 = s2.
Proof.
  unfold encode. intros H.
  rewrite <- (string_of_list_byte_of_string s1), <- (string_of_list_byte_of_string s2).
  by rewrite H.
Qed.

Lemma string_length_app (s1 s2 : string) :
  String.length (s1 +:+ s2) = (String.length s1 + String.length s2)%nat.
Proof. induction s1 as [|c s1 IH]; simpl; [done|]. by rewrite IH. Qed.



(** * Interleaved requests on the D1 worker *)

Section InterleaveFacts.
Context {Op : Type} {Res : Op -> Type} {St A : Type}.
Variable exec : forall op : Op, St -> St * Res op.
Variable sync : Op -> bool.

Lemma interleave_cons_Do i sched (pool : list (prog Op Res A)) st op k :
  pool !! i = Some (Do op k) ->
  interleave exec sync (i :: sched) pool st =
  let out := settle exec sync (k (exec op st).2) (exec op st).1 in
  interleave exec sync sched (<[i := out.1]> pool) out.2.
Proof.
  intros H. simpl. unfold step. rewrite H. destruct (exec op st) as [st' r]. simpl.
  by destruct (settle exec sync (k r) st').
Qed.

Lemma interleave_cons_skip i sched (pool : list (prog Op Res A)) st :
  (forall op k, pool !! i <> Some (Do op k)) ->
  interleave exec sync (i :: sched) pool st = interleave exec sync sched pool st.
Proof.
  intros H. simpl. unfold step.
  destruct (pool !! i) as [[a|op k]|] eqn:Hi; try done. by destruct (H op k).
Qed.

End InterleaveFacts.

Section Interleaved.
Import Suspended.
Variable digest : list byte -> list byte.
Variable env : Env.

Lemma respond_counted rs : counted (respond rs) = true.
Proof.
  unfold respond. destruct rs as [|r1 [|r2 [|r3 rs]]]; try done.
  by destruct (D1.changes r1 =? 0).
Qed.

Lemma post_not_counted req : counted (D1.post digest env req) = false.
Proof.
  unfold D1.post. destruct (negb _); [done|].
  destruct (origin req) as [o|]; [|done].
  destruct (String.eqb o ""); [done|]. by destruct (negb _).
Qed.

Lemma exec_batch_count req d s :
  let d' := (D1.exec_batch [D1.rateLimitStmt digest env req; D1.clapsStmt env req] d).1 in
  match D1.claps d' !! s with Some r => D1.claps_count r | None => 0 end =
  match D1.claps d !! s with Some r => D1.claps_count r | None => 0 end
  + (if String.eqb (slug req) s then D1.incrementBy env (body req) else 0).
Proof.
  cbv zeta. unfold D1.exec_batch.
  pose proof (exec_rate_limit_claps
                (D1.sha256Hex digest env (getClientIp req)) (slug req)
                (D1.windowStart (now req)) (D1.incrementBy env (body req)) (now req)
                (D1.getMaxClapsPerIp env) d) as Hc.
  fold (D1.rateLimitStmt digest env req) in Hc.
  destruct (D1.exec_stmt (D1.rateLimitStmt digest env req) d) as [d1 r1]. simpl in Hc.
  destruct (String.eqb_spec (slug req) s) as [<-|Hne].
  - pose proof (exec_claps_lookup (slug req) (D1.incrementBy env (body req)) (now req) d1) as Hl.
    fold (D1.clapsStmt env req) in Hl.
    destruct (D1.exec_stmt (D1.clapsStmt env req) d1) as [d2 r2]. simpl in *.
    rewrite Hl, Hc. simpl. destruct (D1.claps d !! slug req); lia.
  - pose proof (exec_claps_lookup_ne (slug req) s (D1.incrementBy env (body req))
                  (now req) d1 Hne) as Hl.
    fold (D1.clapsStmt env req) in Hl.
    destruct (D1.exec_stmt (D1.clapsStmt env req) d1) as [d2 r2]. simpl in *.
    rewrite Hl, Hc. lia.
Qed.

(** One step of a handler keeps it on its path, and moves the counter by
    exactly what the step adds to the handler's share. *)
Lemma stage_step req p st s :
  stage digest env req p ->
  match p with
  | Ret _ => True
  | Do op k =>
      stage digest env req (k (D1.exec op st).2) /\
      D1.count_of (D1.exec op st).1 s =
        D1.count_of st s + share env s req (k (D1.exec op st).2)
  end.
Proof.
  intros [ | | | |rs].
  - (* the lookup in the Map *)
    unfold D1.post. destruct (negb _); [done|].
    destruct (origin req) as [o|]; [|done].
    destruct (String.eqb o ""); [done|]. destruct (negb _); [done|].
    simpl. destruct (_ <? _).
    + split; [apply stage_too_fast|]. unfold share. simpl. by rewrite Z.add_0_r.
    + split; [apply stage_record|]. unfold share. simpl. by rewrite Z.add_0_r.
  - done.
  - (* the write to the Map *)
    simpl. split; [apply stage_batch|]. unfold share. simpl. by rewrite Z.add_0_r.
  - (* the batch *)
    unfold send_batch. split.
    + apply stage_answer.
    + unfold share. rewrite respond_counted. cbn [andb].
      pose proof (exec_batch_count req (D1.DB st) s) as Hb. cbv zeta in Hb.
      unfold D1.count_of, D1.exec.
      destruct (D1.exec_batch _ (D1.DB st)) as [d' rs]. exact Hb.
  - unfold respond. destruct rs as [|r1 [|r2 [|r3 rs]]]; try done.
    by destruct (D1.changes r1 =? 0).
Qed.

(** So does a run through the synchronous operations. *)
Lemma settle_stage req p st s :
  stage digest env req p ->
  let out := settle D1.exec D1.sync p st in
  stage digest env req out.1 /\
  D1.count_of out.2 s - share env s req out.1 = D1.count_of st s - share env s req p.
Proof.
  revert st. induction p as [r|op k IH]; intros st Hst; simpl; [done|].
  destruct (D1.sync op); [|done].
  destruct (stage_step req (Do op k) st s Hst) as [Hst' Hcount].
  destruct (D1.exec op st) as [st1 r]. simpl in *.
  destruct (IH r st1 Hst') as [Hst'' Heq]. split; [done|].
  rewrite Heq, Hcount. change (share env s req (Do op k)) with 0. lia.
Qed.

Lemma total_insert s reqs pool i req p p' :
  reqs !! i = Some req -> pool !! i = Some p ->
  total env s reqs (<[i := p']> pool) =
  total env s reqs pool - share env s req p + share env s req p'.
Proof.
  revert pool i. induction reqs as [|r reqs IH]; intros [|q pool] [|i] Hr Hp;
    simplify_eq/=; [lia|].
  rewrite (IH _ _ Hr Hp). lia.
Qed.

Lemma interleave_invariant sched reqs (pool : list (prog D1.op D1.Res D1.response)) st s :
  Forall2 (stage digest env) reqs pool ->
  let out := D1.concurrent sched pool st in
  Forall2 (stage digest env) reqs out.1 /\
  D1.count_of out.2 s - total env s reqs out.1 =
  D1.count_of st s - total env s reqs pool.
Proof.
  unfold D1.concurrent.
  revert pool st. induction sched as [|i sched IH]; intros pool st Hinv.
  - done.
  - destruct (pool !! i) as [[r|op k]|] eqn:Hi.
    + rewrite interleave_cons_skip by (intros ?? E; rewrite E in Hi; done). by apply IH.
    + destruct (Forall2_lookup_r _ _ _ _ _ Hinv Hi) as (req & Hreq & Hst).
      destruct (stage_step req (Do op k) st s Hst) as [Hst' Hcount].
      rewrite (interleave_cons_Do D1.exec D1.sync i sched pool st op k Hi). cbv zeta.
      destruct (settle_stage req (k (D1.exec op st).2) (D1.exec op st).1 s Hst')
        as [Hst'' Hsettle].
      destruct (settle D1.exec D1.sync (k (D1.exec op st).2) (D1.exec op st).1)
        as [p' st'] eqn:Hset. simpl in *.
      destruct (IH (<[i := p']> pool) st') as [Hinv' Heq].
      { rewrite <- (list_insert_id reqs i req Hreq). by apply Forall2_insert. }
      split; [done|]. rewrite Heq.
      rewrite (total_insert s reqs pool i req (Do op k) _ Hreq Hi).
      change (share env s req (Do op k)) with 0. lia.
    + rewrite interleave_cons_skip by (intros ?? E; rewrite E in Hi; done). by apply IH.
Qed.

Lemma total_start s reqs : total env s reqs (D1.post digest env <$> reqs) = 0.
Proof.
  induction reqs as [|r reqs IH]; [done|].
  rewrite fmap_cons. cbn [total]. unfold share. rewrite post_not_counted, IH. done.
Qed.

(** Any interleaving of any POSTs of the D1 worker: the counter of a slug
    has grown by the increments of exactly the requests whose batch has
    run. *)
Lemma interleaved_posts_counted sched reqs st s :
  let out := D1.concurrent sched (D1.post digest env <$> reqs) st in
  D1.count_of out.2 s = D1.count_of st s + total env s reqs out.1.
Proof.
  intros out.
  destruct (interleave_invariant sched reqs (D1.post digest env <$> reqs) st s) as [_ H].
  { apply Forall2_fmap_r, Forall_Forall2_diag, Forall_forall. intros; constructor. }
  fold out in H. rewrite total_start in H. clearbody out. lia.
Qed.

End Interleaved.


Section Accepted.
Import Suspended.
Variable digest : list byte -> list byte.
Variable env : Env.

Lemma stage_accepted req r :
  stage digest env req (Ret r) -> D1.status r = 200 -> counted (Ret r) = true.
Proof.
  intros Hst. remember (Ret r) as p eqn:Hp. revert Hp.
  destruct Hst as [ | | | |rs]; intros Hp Hr; try done.
  - unfold D1.post in Hp. destruct (negb _); [by simplify_eq|].
    destruct (origin req) as [o|]; [|by simplify_eq].
    destruct (String.eqb o ""); [by simplify_eq|]. destruct (negb _); by simplify_eq.
  - by simplify_eq.
  - apply respond_counted.
Qed.

Lemma total_accepted s reqs (pool : list (prog D1.op D1.Res D1.response)) :
  Forall2 (stage digest env) reqs pool ->
  Forall (fun req => slug req = s) reqs ->
  Forall (fun p => exists r, p = Ret r /\ D1.status r = 200) pool ->
  total env s reqs pool = foldr Z.add 0 ((fun req => D1.incrementBy env (body req)) <$> reqs).
Proof.
  induction 1 as [|req p reqs pool Hst _ IH]; intros Hs Hp; [done|].
  apply Forall_cons in Hs as [Hs1 Hs]. apply Forall_cons in Hp as [(r & -> & Hr) Hp].
  rewrite fmap_cons. cbn [total foldr]. rewrite (IH Hs Hp). unfold share.
  rewrite (stage_accepted req r Hst Hr), Hs1, String.eqb_refl. done.
Qed.

(** X2: any number of POSTs for one slug, interleaved in any way on the
    D1 worker: when every one of them has been answered 200, the counter
    has grown by the sum of their increments. *)
Lemma interleaved_accepted_sum sched reqs st s :
  let out := D1.concurrent sched (D1.post digest env <$> reqs) st in
  Forall (fun req => slug req = s) reqs ->
  Forall (fun p => exists r, p = Ret r /\ D1.status r = 200) out.1 ->
  D1.count_of out.2 s =
  D1.count_of st s + foldr Z.add 0 ((fun req => D1.incrementBy env (body req)) <$> reqs).
Proof.
  intros out Hs Hp.
  destruct (interleave_invariant digest env sched reqs (D1.post digest env <$> reqs) st s)
    as [Hinv _].
  { apply Forall2_fmap_r, Forall_Forall2_diag, Forall_forall. intros; constructor. }
  fold out in Hinv. rewrite <- (total_accepted s reqs out.1 Hinv Hs Hp).
  apply interleaved_posts_counted.
Qed.

(** The counter of the D1 worker never moves down, as long as the
    per-request ceiling is configured positive. *)
Lemma count_of_monotone e st s :
  1 <= D1.getMaxClapsPerRequest env ->
  D1.count_of st s <= D1.count_of (D1.handle digest env e st) s.
Proof.
  intros HR. destruct e as [req|req|n]; simpl.
  - unfold D1.serve, D1.get. destruct (negb _); simpl; [lia|].
    unfold D1.count_of. simpl. lia.
  - destruct (isValidSlug (slug req) && allowed_origin env req) eqn:Hg.
    2:{ destruct (post_turned_away digest env req st Hg) as (r & -> & _). simpl. lia. }
    destruct (Z.lt_ge_cases
                (now req - Js.or_default
                             (D1.lastRequestTime st !! D1.debounceKey digest env req) 0)
                D1.DEBOUNCE_MS) as [Hlt|Hge].
    { rewrite post_too_fast by done. simpl. lia. }
    rewrite post_past_debounce by done. cbv zeta.
    pose proof (exec_batch_count digest env req (D1.DB st) s) as Hb.
    cbv zeta in Hb. unfold D1.exec_batch in Hb.
    destruct (D1.exec_stmt (D1.rateLimitStmt digest env req) (D1.DB st)) as [d1 r1].
    destruct (D1.exec_stmt (D1.clapsStmt env req) d1) as [d2 r2].
    unfold D1.count_of. simpl in *. rewrite Hb.
    pose proof (incrementBy_clamped env (body req) HR).
    destruct (String.eqb (slug req) s); lia.
  - destruct (scheduled_effect n (D1.DB st)) as (d' & cs & -> & Hcl & _).
    unfold D1.count_of. simpl. rewrite Hcl. lia.
Qed.

End Accepted.

(** * The debounce among handlers in flight *)

Section DebounceInFlight.
Import Suspended.
Variable digest : list byte -> list byte.
Variable env : Env.

Lemma not_earlier_refl st : not_earlier st st.
Proof. intros key t H. eauto with lia. Qed.

Lemma covered_later st st' req p :
  not_earlier st st' -> covered digest env st req p -> covered digest env st' req p.
Proof.
  intros Hle Hc Hrec. destruct (Hc Hrec) as (t & Ht & Hnow).
  destruct (Hle _ _ Ht) as (t' & Ht' & Hle'). eauto with lia.
Qed.

(** One turn of a handler: it is again at a waiting point, no recorded
    time has moved back, and its own time is covered. *)
Lemma waiting_turn req p st :
  waiting digest env req p -> covered digest env st req p ->
  match p with
  | Ret _ => True
  | Do op k =>
      let out := settle D1.exec D1.sync (k (D1.exec op st).2) (D1.exec op st).1 in
      waiting digest env req out.1 /\ not_earlier st out.2 /\ covered digest env out.2 req out.1
  end.
Proof.
  intros [ | | |rs] Hcov.
  - unfold D1.post. destruct (negb _); [done|].
    destruct (origin req) as [o|]; [|done].
    destruct (String.eqb o ""); [done|]. destruct (negb _); [done|].
    cbn [D1.exec fst snd].
    destruct (Z.ltb_spec (now req - Js.or_default
                (D1.lastRequestTime st !! D1.debounceKey digest env req) 0)
                D1.DEBOUNCE_MS) as [Hlt|Hge].
    + simpl. split; [apply waiting_too_fast|]. split; [apply not_earlier_refl|done].
    + simpl. split; [apply waiting_batch|]. split.
      * intros key t Hk. cbn [D1.lastRequestTime].
        destruct (decide (D1.debounceKey digest env req = key)) as [<-|Hne].
        -- rewrite lookup_insert_eq. rewrite Hk, or_default_0 in Hge. simpl in Hge.
           unfold D1.DEBOUNCE_MS in Hge. eauto with lia.
        -- rewrite lookup_insert_ne by done. eauto with lia.
      * intros _. cbn [D1.lastRequestTime]. rewrite lookup_insert_eq. eauto with lia.
  - done.
  - unfold send_batch. cbn [D1.exec].
    destruct (D1.exec_batch _ (D1.DB st)) as [d rs]. cbn [fst snd].
    assert (settle D1.exec D1.sync (respond rs)
              {| D1.DB := d; D1.lastRequestTime := D1.lastRequestTime st |} =
            (respond rs, {| D1.DB := d; D1.lastRequestTime := D1.lastRequestTime st |}))
      as ->.
    { unfold respond. destruct rs as [|r1 [|r2 [|r3 rs]]]; try done.
      by destruct (D1.changes r1 =? 0). }
    simpl. split; [apply waiting_answer|]. split.
    + intros key t Hk. simpl. eauto with lia.
    + intros _. simpl. by apply Hcov.
  - unfold respond. destruct rs as [|r1 [|r2 [|r3 rs]]]; try done.
    by destruct (D1.changes r1 =? 0).
Qed.

Lemma concurrent_waiting sched reqs (pool : list (prog D1.op D1.Res D1.response)) st :
  Forall2 (fun req p => waiting digest env req p /\ covered digest env st req p) reqs pool ->
  let out := D1.concurrent sched pool st in
  Forall2 (fun req p => waiting digest env req p /\ covered digest env out.2 req p) reqs out.1.
Proof.
  unfold D1.concurrent.
  revert pool st. induction sched as [|i sched IH]; intros pool st Hinv.
  - done.
  - destruct (pool !! i) as [[r|op k]|] eqn:Hi.
    + rewrite interleave_cons_skip by (intros ?? E; rewrite E in Hi; done). by apply IH.
    + destruct (Forall2_lookup_r _ _ _ _ _ Hinv Hi) as (req & Hreq & Hw & Hc).
      pose proof (waiting_turn req (Do op k) st Hw Hc) as Hturn. cbv zeta in Hturn.
      rewrite (interleave_cons_Do D1.exec D1.sync i sched pool st op k Hi). cbv zeta.
      destruct (settle D1.exec D1.sync (k (D1.exec op st).2) (D1.exec op st).1)
        as [p' st'] eqn:Hset. destruct Hturn as (Hw' & Hle & Hc').
      rewrite ?Hset in Hw', Hle, Hc'. cbn [fst snd] in *.
      apply IH. rewrite <- (list_insert_id reqs i req Hreq).
      apply Forall2_insert; [|done].
      eapply Forall2_impl; [exact Hinv|]. intros req0 p0 [Hw0 Hc0]. split; [done|].
      by eapply covered_later.
    + rewrite interleave_cons_skip by (intros ?? E; rewrite E in Hi; done). by apply IH.
Qed.

Lemma post_not_recorded req : recorded (D1.post digest env req) = false.
Proof.
  unfold D1.post. destruct (negb _); [done|].
  destruct (origin req) as [o|]; [|done].
  destruct (String.eqb o ""); [done|]. by destruct (negb _).
Qed.

Lemma waiting_accepted req r :
  waiting digest env req (Ret r) -> D1.status r = 200 -> recorded (Ret r) = true.
Proof.
  intros Hw. remember (Ret r) as p eqn:Hp. revert Hp.
  destruct Hw as [ | | |rs]; intros Hp Hr; try done.
  - unfold D1.post in Hp. destruct (negb _); [by simplify_eq|].
    destruct (origin req) as [o|]; [|by simplify_eq].
    destruct (String.eqb o ""); [by simplify_eq|]. destruct (negb _); by simplify_eq.
  - by simplify_eq.
  - pose proof (respond_counted rs) as Hc. rewrite Hp in *. exact Hc.
Qed.

(** X3: any POSTs in flight in one instance of the D1 worker, interleaved
    in any way: once one of them has been answered 200, a new POST of the
    same token and slug that arrives within 500 ms of it and passes the
    Origin check is turned away as soon as it gets control, the state
    unchanged. *)
Lemma debounce_in_flight sched reqs st i req r again :
  let out := D1.concurrent sched (D1.post digest env <$> reqs) st in
  reqs !! i = Some req ->
  out.1 !! i = Some (Ret r) -> D1.status r = 200 ->
  D1.sha256Hex digest env (getClientIp again) = D1.sha256Hex digest env (getClientIp req) ->
  slug again = slug req ->
  isValidSlug (slug again) && allowed_origin env again = true ->
  now again - now req < D1.DEBOUNCE_MS ->
  settle D1.exec D1.sync (D1.post digest env again) out.2 =
    (Ret {| D1.status := 429; D1.json := D1.TooFast |}, out.2).
Proof.
  intros out Hreq Hi Hr Htok Hslug Hopen Hlt.
  pose proof (concurrent_waiting sched reqs (D1.post digest env <$> reqs) st) as Hinv.
  cbv zeta in Hinv. fold out in Hinv.
  assert (Hstart : Forall2 (fun req p => waiting digest env req p /\ covered digest env st req p)
                     reqs (D1.post digest env <$> reqs)).
  { apply Forall2_fmap_r, Forall_Forall2_diag, Forall_forall.
    intros x _. split; [constructor|]. intros Hrec.
    by rewrite post_not_recorded in Hrec. }
  destruct (Forall2_lookup_lr _ _ _ _ _ _ (Hinv Hstart) Hreq Hi) as [Hw Hc].
  destruct (Hc (waiting_accepted req r Hw Hr)) as (t & Ht & Hnow).
  assert (Hkey : D1.debounceKey digest env again = D1.debounceKey digest env req).
  { unfold D1.debounceKey. by rewrite Htok, Hslug. }
  unfold D1.post, allowed_origin in *.
  apply andb_prop in Hopen as [-> Hopen]. simpl.
  destruct (origin again) as [o|]; [|done].
  apply andb_prop in Hopen as [H1 ->]. apply negb_true_iff in H1. rewrite H1. simpl.
  rewrite Hkey, Ht, or_default_0. simpl.
  destruct (Z.ltb_spec (now again - t) D1.DEBOUNCE_MS); [done|lia].
Qed.

End DebounceInFlight.

(** * The counter of the KV worker *)

(** C5 (the KV worker breaks it): the KV worker changes the counter by
    reading it, adding in the handler and writing the sum back; and when
    two such handlers interleave, the counter moves down: it holds 5
    after the second request has finished and 1 after the first one has
    written its stale sum. *)
Theorem kv_counter_read_add_write :
  let one := Sample.clap "203.0.113.7" 1 Sample.t0 in
  let five := Sample.clap "198.51.100.9" 5 Sample.t0 in
  let pool := [KV.post Sample.env one; KV.post Sample.env five] in
  (KV.serve (KV.post Sample.env one) ∅).2 =
    [KV.Get "rl:203.0.113.7:hello-world";
     KV.Put "rl:203.0.113.7:hello-world" (KV.KvRl 1 Sample.t0) (Some 7200);
     KV.Get "claps:hello-world";
     KV.Put "claps:hello-world" (KV.KvCount (Js.Fin 1)) None] /\
  (KV.concurrent [0; 0; 0; 1; 1; 1; 1]%nat pool ∅).2 !! "claps:hello-world" =
    Some (KV.KvCount (Js.Fin 5)) /\
  (KV.concurrent [0; 0; 0; 1; 1; 1; 1; 0]%nat pool ∅).2 !! "claps:hello-world" =
    Some (KV.KvCount (Js.Fin 1)).
Proof. vm_compute. repeat split; reflexivity. Qed.

(** C6 (the KV worker breaks it): two requests for one slug, of 1 and of
    5 claps, from two clients, both admitted and both answered 200; when
    the second runs between the first one's read of the counter and its
    write, the counter ends at 1 and not at 6. *)
Theorem kv_interleaved_increment_lost :
  let one := Sample.clap "203.0.113.7" 1 Sample.t0 in
  let five := Sample.clap "198.51.100.9" 5 Sample.t0 in
  let pool := [KV.post Sample.env one; KV.post Sample.env five] in
  let out := KV.concurrent [0; 0; 0; 1; 1; 1; 1; 0]%nat pool ∅ in
  finished <$> out.1 =
    [Some {| KV.status := 200; KV.json := KV.CountSuccess (Js.Fin 1) |};
     Some {| KV.status := 200; KV.json := KV.CountSuccess (Js.Fin 5) |}] /\
  out.2 !! "claps:hello-world" = Some (KV.KvCount (Js.Fin 1)).
Proof. vm_compute. repeat split; reflexivity. Qed.

(** The same two requests on the D1 worker, under the same interleaving
    and under the one where the second request runs first: 6 either way. *)
Example d1_interleaved_sum :
  let one := Sample.clap "203.0.113.7" 1 Sample.t0 in
  let five := Sample.clap "198.51.100.9" 5 Sample.t0 in
  let pool := D1.post Sha256.digest Sample.env <$> [one; five] in
  D1.count_of (D1.concurrent [0; 1; 1; 0]%nat pool Sample.empty).2 "hello-world" = 6 /\
  D1.count_of (D1.concurrent [1; 1; 0; 0]%nat pool Sample.empty).2 "hello-world" = 6.
Proof. vm_compute. split; reflexivity. Qed.

(** * Checks of the model against known values *)

Example sha256_abc :
  hex_of_bytes (Sha256.digest (encode "abc")) =
  "ba7816bf8f01cfea414140de5dae2223b00361a396177a9cb410ff61f20015ad".
Proof. vm_compute. reflexivity. Qed.

Example sha256_two_blocks :
  hex_of_bytes (Sha256.digest (repeat "x"%byte 200)) =
  "aa20c23e3201834050679e1d88941b9a6fed0557c9a705cb2c315e2e63fd486d".
Proof. vm_compute. reflexivity. Qed.

Example sha256Hex_sample :
  D1.sha256Hex Sha256.digest Sample.env "203.0.113.7" =
  "e0dc27fa1b25a23ba014e36d2a1f1f84450214ba108029b8c207dfaeb0e046f4".
Proof. vm_compute. reflexivity. Qed.

Example parseInt_rounds_to_double :
  Js.parseInt (Some "9007199254740992") = Some 9007199254740992 /\
  Js.parseInt (Some "9007199254740993") = Some 9007199254740992 /\
  Js.parseInt (Some "9007199254740995") = Some 9007199254740996 /\
  Js.parseInt (Some "-18014398509481987") = Some (-18014398509481988) /\
  Js.parseInt (Some "123456789012345678901234567890") =
    Some 123456789012345677877719597056.
Proof. vm_compute. repeat split; reflexivity. Qed.

Example parseInt_skips_white_space :
  let nbsp := String "194" (String "160" "") in
  let bom := String "239" (String "187" (String "191" "")) in
  Js.parseInt (Some (nbsp +:+ "60")) = Some 60 /\
  Js.parseInt (Some (bom +:+ " " +:+ nbsp +:+ "-7 ")) = Some (-7) /\
  Js.parseInt (Some ("6" +:+ nbsp +:+ "0")) = Some 6.
Proof. vm_compute. repeat split; reflexivity. Qed.

Example trim_examples :
  let nbsp := String "194" (String "160" "") in
  let em_space := String "226" (String "128" (String "131" "")) in
  let ideographic_space := String "227" (String "128" (String "128" "")) in
  let zero_width_space := String "226" (String "128" (String "139" "")) in
  Js.trim (nbsp +:+ "https://b.dev" +:+ nbsp) = "https://b.dev" /\
  Js.trim (em_space +:+ " a b" +:+ ideographic_space +:+ String "009" "") = "a b" /\
  Js.trim (zero_width_space +:+ "a") = zero_width_space +:+ "a" /\
  Js.trim (" " +:+ nbsp) = "".
Proof. vm_compute. repeat split; reflexivity. Qed.

Example parseInt_examples :
  Js.parseInt (Some " 42px") = Some 42 /\ Js.parseInt (Some "-7") = Some (-7) /\
  Js.parseInt (Some "abc") = None /\ Js.parseInt None = None /\
  Js.or_default (Js.parseInt (Some "0")) 50 = 50.
Proof. repeat split; reflexivity. Qed.

Example getAllowedOrigins_example :
  getAllowedOrigins
    {| ALLOWED_ORIGINS := Some "https://a.dev, https://b.dev ,,";
       IP_HASH_SALT := None; MAX_CLAPS_PER_IP := None; MAX_CLAPS_PER_REQUEST := None |}
  = ["https://a.dev"; "https://b.dev"].
Proof. vm_compute. reflexivity. Qed.

Example isValidSlug_examples :
  isValidSlug "hello-world" = true /\ isValidSlug "2024:it's_here.v2" = true /\
  isValidSlug "" = false /\ isValidSlug "-leading" = false /\
  isValidSlug "Hello" = false /\ isValidSlug "a b" = false.
Proof. repeat split; reflexivity. Qed.

(** Three rows, one of them older than two hours: one short batch. *)
Example scheduled_example :
  let row := {| D1.rl_count := 3; D1.rl_updated_at := 0 |} in
  let table : gmap (string * string * Z) D1.rate_limits_row :=
    <[("a", "s", 3600000) := row]>
      (<[("b", "s", 7200000) := row]> (<[("c", "s", 10800000) := row]> ∅)) in
  match D1.scheduled 14000000 {| D1.claps := ∅; D1.rate_limits := table |} with
  | Some (d, cs) =>
      cs = [1] /\ map_to_list (D1.rate_limits d) ≡ₚ
                  [(("b", "s", 7200000), row); (("c", "s", 10800000), row)]
  | None => False
  end.
Proof. vm_compute. split; [reflexivity|]. apply Permutation_refl || apply perm_swap. Qed.

(** * More on the D1 worker *)


Section D1Post.
Variable digest : list byte -> list byte.
Variable env : Env.

(** What a POST that gets past the debounce does, spelled out. *)
Lemma post_effect req st :
  isValidSlug (slug req) && allowed_origin env req = true ->
  D1.DEBOUNCE_MS <=
    now req - Js.or_default (D1.lastRequestTime st !! D1.debounceKey digest env req) 0 ->
  let key := (D1.sha256Hex digest env (getClientIp req), slug req, D1.windowStart (now req)) in
  let amount := D1.incrementBy env (body req) in
  let row := D1.rate_limits (D1.DB st) !! key in
  let used := match row with Some r => D1.rl_count r | None => 0 end in
  let accepted := match row with
                  | Some r => D1.rl_count r + amount <=? D1.getMaxClapsPerIp env
                  | None => true
                  end in
  let total := D1.count_of st (slug req) + amount in
  let out := D1.serve (D1.post digest env req) st in
  out.1.1 = (if accepted
             then {| D1.status := 200; D1.json := D1.CountSuccess total |}
             else {| D1.status := 429; D1.json := D1.RateLimitExceeded |}) /\
  D1.rate_limits (D1.DB out.1.2) =
    (if accepted
     then <[key := {| D1.rl_count := used + amount; D1.rl_updated_at := now req |}]>
            (D1.rate_limits (D1.DB st))
     else D1.rate_limits (D1.DB st)) /\
  D1.claps (D1.DB out.1.2) =
    <[slug req := {| D1.claps_count := total; D1.claps_updated_at := now req |}]>
      (D1.claps (D1.DB st)) /\
  D1.lastRequestTime out.1.2 =
    <[D1.debounceKey digest env req := now req]> (D1.lastRequestTime st).
Proof.
  intros Hopen Hge. cbv zeta. rewrite post_past_debounce by done. cbv zeta.
  unfold D1.rateLimitStmt, D1.clapsStmt, D1.exec_stmt, D1.count_of.
  destruct (D1.rate_limits (D1.DB st) !! _) as [r|] eqn:Hrow.
  - destruct (D1.rl_count r + D1.incrementBy env (body req) <=? D1.getMaxClapsPerIp env);
      simpl; destruct (D1.claps (D1.DB st) !! slug req); simpl; repeat split; done.
  - simpl. destruct (D1.claps (D1.DB st) !! slug req); simpl; repeat split; done.
Qed.

End D1Post.

Lemma post_status_200 digest env req st :
  D1.status (D1.serve (D1.post digest env req) st).1.1 = 200 ->
  isValidSlug (slug req) && allowed_origin env req = true /\
  D1.DEBOUNCE_MS <=
    now req - Js.or_default (D1.lastRequestTime st !! D1.debounceKey digest env req) 0.
Proof.
  intros H200.
  destruct (isValidSlug (slug req) && allowed_origin env req) eqn:Hopen.
  2:{ destruct (post_turned_away digest env req st Hopen) as (r & Hr & Hne).
      rewrite Hr in H200. done. }
  split; [done|].
  destruct (Z.lt_ge_cases
              (now req - Js.or_default
                           (D1.lastRequestTime st !! D1.debounceKey digest env req) 0)
              D1.DEBOUNCE_MS) as [Hlt|Hge]; [|done].
  rewrite post_too_fast in H200 by done. done.
Qed.

Lemma get_valid req st :
  isValidSlug (slug req) = true ->
  D1.serve (D1.get req) st =
    ({| D1.status := 200; D1.json := D1.Count (D1.count_of st (slug req)) |}, st,
     [D1.First (D1.SelectClaps (slug req))]).
Proof.
  intros Hv. unfold D1.serve, D1.get, D1.count_of. rewrite Hv. simpl.
  unfold D1.exec_stmt. destruct st as [d m]. simpl.
  by destruct (D1.claps d !! slug req).
Qed.

(** X4: a GET for a valid slug on the D1 worker answers 200 with the
    stored count of the slug, 0 when the slug has no row; it sends the one
    SELECT and changes neither the tables nor the Map, whatever they
    hold. *)
Theorem d1_get_is_read_only (req : Request) (st : D1.state) :
  isValidSlug (slug req) = true ->
  let out := D1.serve (D1.get req) st in
  out.1.1 = {| D1.status := 200;
               D1.json := D1.Count (match D1.claps (D1.DB st) !! slug req with
                                    | Some row => D1.claps_count row
                                    | None => 0
                                    end) |} /\
  out.1.2 = st /\
  out.2 = [D1.First (D1.SelectClaps (slug req))].
Proof. intros Hv. cbv zeta. rewrite get_valid by done. done. Qed.

Lemma d1_get_is_read_only_witness :
  let st := D1.handle_all Sha256.digest Sample.env Sample.fifty Sample.empty in
  let out := D1.serve (D1.get (Sample.clap "198.51.100.9" 1 (Sample.t0 + 9000))) st in
  out.1.1 = {| D1.status := 200; D1.json := D1.Count 50 |} /\ out.1.2 = st.
Proof.
  pose proof (d1_get_is_read_only (Sample.clap "198.51.100.9" 1 (Sample.t0 + 9000))
                (D1.handle_all Sha256.digest Sample.env Sample.fifty Sample.empty)
                eq_refl) as (H1 & H2 & _).
  split; [|exact H2]. etrans; [exact H1|]. vm_compute. reflexivity.
Defined.

(** X5: what an accepted POST does on the D1 worker.  When the answer is
    200, the count it carries is the old count of the slug plus the
    increment, and that is the count now stored; the limiter's row of the
    client, slug and window holds what it held before (0 if there was no
    row) plus the increment; and the arrival time is in the Map under the
    debounce key. *)
Theorem d1_accepted_post_effect
    (digest : list byte -> list byte) (env : Env) (req : Request) (st : D1.state) :
  let out := D1.serve (D1.post digest env req) st in
  let key := (D1.sha256Hex digest env (getClientIp req), slug req, D1.windowStart (now req)) in
  let amount := D1.incrementBy env (body req) in
  let used := match D1.rate_limits (D1.DB st) !! key with
              | Some r => D1.rl_count r
              | None => 0
              end in
  D1.status out.1.1 = 200 ->
  D1.json out.1.1 = D1.CountSuccess (D1.count_of st (slug req) + amount) /\
  D1.count_of out.1.2 (slug req) = D1.count_of st (slug req) + amount /\
  D1.rate_limits (D1.DB out.1.2) !! key =
    Some {| D1.rl_count := used + amount; D1.rl_updated_at := now req |} /\
  D1.lastRequestTime out.1.2 !! D1.debounceKey digest env req = Some (now req).
Proof.
  intros out key amount used H200.
  destruct (post_status_200 digest env req st H200) as [Hopen Hge].
  destruct (post_effect digest env req st Hopen Hge) as (Hr & Hrl & Hcl & Hm).
  fold out key amount in Hr, Hrl, Hcl, Hm. fold out in H200.
  destruct (match D1.rate_limits (D1.DB st) !! key with
            | Some r => D1.rl_count r + amount <=? D1.getMaxClapsPerIp env
            | None => true
            end) eqn:Hadm.
  - rewrite Hr. split; [done|]. split.
    + unfold D1.count_of at 1. rewrite Hcl, lookup_insert_eq. done.
    + split; [by rewrite Hrl, lookup_insert_eq|by rewrite Hm, lookup_insert_eq].
  - rewrite Hr in H200. done.
Qed.

Lemma d1_accepted_post_effect_witness :
  let st := D1.handle_all Sha256.digest Sample.env (take 2 Sample.fifty) Sample.empty in
  let req := Sample.clap "203.0.113.7" (7 # 2) (Sample.t0 + 2000) in
  let out := D1.serve (D1.post Sha256.digest Sample.env req) st in
  D1.status out.1.1 = 200 /\
  D1.json out.1.1 = D1.CountSuccess 23 /\
  D1.count_of out.1.2 "hello-world" = 23.
Proof.
  pose proof (d1_accepted_post_effect Sha256.digest Sample.env
                (Sample.clap "203.0.113.7" (7 # 2) (Sample.t0 + 2000))
                (D1.handle_all Sha256.digest Sample.env (take 2 Sample.fifty) Sample.empty))
    as H.
  cbv zeta in H. destruct H as (H1 & H2 & _); [vm_compute; reflexivity|].
  split; [vm_compute; reflexivity|]. split.
  - etrans; [exact H1|]. vm_compute. reflexivity.
  - etrans; [exact H2|]. vm_compute. reflexivity.
Defined.

(** X6: a GET that follows an accepted POST for the same slug on the D1
    worker answers the count the POST answered. *)
Theorem d1_get_after_accepted_post
    (digest : list byte -> list byte) (env : Env)
    (req reader : Request) (st : D1.state) (count : Z) :
  (D1.serve (D1.post digest env req) st).1.1 =
    {| D1.status := 200; D1.json := D1.CountSuccess count |} ->
  slug reader = slug req ->
  (D1.serve (D1.get reader) (D1.serve (D1.post digest env req) st).1.2).1.1 =
    {| D1.status := 200; D1.json := D1.Count count |}.
Proof.
  intros Hresp Hslug.
  assert (H200 : D1.status (D1.serve (D1.post digest env req) st).1.1 = 200)
    by (by rewrite Hresp).
  destruct (post_status_200 digest env req st H200) as [Hopen Hge].
  destruct (post_effect digest env req st Hopen Hge) as (Hr & _ & Hcl & _).
  apply andb_prop in Hopen as [Hv _].
  rewrite get_valid by (by rewrite Hslug). simpl.
  unfold D1.count_of at 1. rewrite Hslug, Hcl, lookup_insert_eq. simpl.
  rewrite Hresp in Hr.
  destruct (match D1.rate_limits (D1.DB st) !! _ with Some _ => _ | None => _ end);
    [|done].
  by injection Hr as ->.
Qed.

Lemma d1_get_after_accepted_post_witness :
  let req := Sample.clap "203.0.113.7" 4 Sample.t0 in
  let reader := Sample.clap "198.51.100.9" 1 (Sample.t0 + 10) in
  (D1.serve (D1.post Sha256.digest Sample.env req) Sample.empty).1.1 =
    {| D1.status := 200; D1.json := D1.CountSuccess 4 |} /\
  (D1.serve (D1.get reader)
     (D1.serve (D1.post Sha256.digest Sample.env req) Sample.empty).1.2).1.1 =
    {| D1.status := 200; D1.json := D1.Count 4 |}.
Proof.
  split; [vm_compute; reflexivity|].
  apply (d1_get_after_accepted_post Sha256.digest Sample.env
           (Sample.clap "203.0.113.7" 4 Sample.t0)
           (Sample.clap "198.51.100.9" 1 (Sample.t0 + 10)) Sample.empty 4);
    vm_compute; reflexivity.
Defined.

(** X7: the debounce of the D1 worker, both ways.  A POST that passes
    the slug and Origin checks is answered "Too fast" exactly when it
    arrives less than 500 ms after the time recorded under its key, the
    time counting as 0 when there is none; and then the state is
    unchanged. *)
Theorem d1_debounce_exact
    (digest : list byte -> list byte) (env : Env) (req : Request) (st : D1.state) :
  isValidSlug (slug req) && allowed_origin env req = true ->
  let out := D1.serve (D1.post digest env req) st in
  let last := default 0 (D1.lastRequestTime st !! D1.debounceKey digest env req) in
  (D1.json out.1.1 = D1.TooFast <-> now req - last < 500) /\
  (D1.json out.1.1 = D1.TooFast -> out.1.2 = st).
Proof.
  intros Hopen out last. subst out last. rewrite <- or_default_0.
  destruct (Z.lt_ge_cases
              (now req - Js.or_default
                           (D1.lastRequestTime st !! D1.debounceKey digest env req) 0)
              D1.DEBOUNCE_MS) as [Hlt|Hge].
  - rewrite post_too_fast by done. simpl. unfold D1.DEBOUNCE_MS in Hlt. done.
  - destruct (post_effect digest env req st Hopen Hge) as (Hr & _).
    rewrite Hr. unfold D1.DEBOUNCE_MS in Hge.
    destruct (match D1.rate_limits (D1.DB st) !! _ with Some _ => _ | None => _ end);
      simpl; (split; [split; [done|lia]|done]).
Qed.

Lemma d1_debounce_exact_witness :
  let first := Sample.clap "203.0.113.7" 3 Sample.t0 in
  let st := (D1.serve (D1.post Sha256.digest Sample.env first) Sample.empty).1.2 in
  let late := Sample.clap "203.0.113.7" 1 (Sample.t0 + 500) in
  D1.json (D1.serve (D1.post Sha256.digest Sample.env late) st).1.1 <> D1.TooFast.
Proof.
  pose proof (d1_debounce_exact Sha256.digest Sample.env
                (Sample.clap "203.0.113.7" 1 (Sample.t0 + 500))
                (D1.serve (D1.post Sha256.digest Sample.env
                             (Sample.clap "203.0.113.7" 3 Sample.t0)) Sample.empty).1.2
                eq_refl) as [[H _] _].
  cbv zeta. intros Hfast. apply H in Hfast. vm_compute in Hfast. discriminate Hfast.
Defined.

(** X8: a POST turned away by the limiter of the D1 worker.  It found a
    row of its client, slug and window whose count plus the increment is
    above the ceiling; the limiter's table is left as it was; and the
    arrival time is recorded all the same, so that the debounce applies to
    the next request. *)
Theorem d1_rate_limited_post_effect
    (digest : list byte -> list byte) (env : Env) (req : Request) (st : D1.state) :
  let out := D1.serve (D1.post digest env req) st in
  let key := (D1.sha256Hex digest env (getClientIp req), slug req, D1.windowStart (now req)) in
  D1.json out.1.1 = D1.RateLimitExceeded ->
  (exists r, D1.rate_limits (D1.DB st) !! key = Some r /\
             D1.getMaxClapsPerIp env < D1.rl_count r + D1.incrementBy env (body req)) /\
  D1.rate_limits (D1.DB out.1.2) = D1.rate_limits (D1.DB st) /\
  D1.lastRequestTime out.1.2 !! D1.debounceKey digest env req = Some (now req).
Proof.
  intros out key Hrl.
  destruct (isValidSlug (slug req) && allowed_origin env req) eqn:Hopen.
  2:{ unfold out in Hrl. unfold D1.serve, D1.post, allowed_origin in *.
      destruct (isValidSlug (slug req)); simpl in *; [|done].
      destruct (origin req) as [o|]; [|done].
      destruct (String.eqb o ""); simpl in *; [done|]. rewrite Hopen in Hrl. done. }
  destruct (Z.lt_ge_cases
              (now req - Js.or_default
                           (D1.lastRequestTime st !! D1.debounceKey digest env req) 0)
              D1.DEBOUNCE_MS) as [Hlt|Hge].
  { unfold out in Hrl. rewrite post_too_fast in Hrl by done. done. }
  destruct (post_effect digest env req st Hopen Hge) as (Hr & Htab & _ & Hm).
  fold out key in Hr, Htab, Hm.
  destruct (D1.rate_limits (D1.DB st) !! key) as [r|] eqn:Hrow.
  - destruct (Z.leb_spec (D1.rl_count r + D1.incrementBy env (body req))
                (D1.getMaxClapsPerIp env)) as [Hle|Hgt].
    + rewrite Hr in Hrl. done.
    + split; [eauto|]. split; [done|]. by rewrite Hm, lookup_insert_eq.
  - rewrite Hr in Hrl. done.
Qed.

Lemma d1_rate_limited_post_effect_witness :
  let st := D1.handle_all Sha256.digest Sample.env Sample.fifty Sample.empty in
  let sixth := Sample.clap "203.0.113.7" 1 (Sample.t0 + 5000) in
  let out := D1.serve (D1.post Sha256.digest Sample.env sixth) st in
  D1.json out.1.1 = D1.RateLimitExceeded /\
  D1.rate_limits (D1.DB out.1.2) = D1.rate_limits (D1.DB st).
Proof.
  split; [vm_compute; reflexivity|].
  apply (d1_rate_limited_post_effect Sha256.digest Sample.env
           (Sample.clap "203.0.113.7" 1 (Sample.t0 + 5000))
           (D1.handle_all Sha256.digest Sample.env Sample.fifty Sample.empty)).
  vm_compute. reflexivity.
Defined.

(** X9: a POST on the D1 worker, whatever its outcome, leaves alone every
    limiter row but the one of its client, slug and window, every counter
    but the one of its slug, and every recorded time but the one under its
    debounce key. *)
Theorem d1_post_touches_own_rows_only
    (digest : list byte -> list byte) (env : Env) (req : Request) (st : D1.state) :
  let out := D1.serve (D1.post digest env req) st in
  (forall k, k <> (D1.sha256Hex digest env (getClientIp req), slug req,
                   D1.windowStart (now req)) ->
             D1.rate_limits (D1.DB out.1.2) !! k = D1.rate_limits (D1.DB st) !! k) /\
  (forall s, s <> slug req ->
             D1.claps (D1.DB out.1.2) !! s = D1.claps (D1.DB st) !! s) /\
  (forall dk, dk <> D1.debounceKey digest env req ->
              D1.lastRequestTime out.1.2 !! dk = D1.lastRequestTime st !! dk).
Proof.
  intros out. subst out.
  destruct (isValidSlug (slug req) && allowed_origin env req) eqn:Hopen.
  2:{ destruct (post_turned_away digest env req st Hopen) as (r & -> & _). done. }
  destruct (Z.lt_ge_cases
              (now req - Js.or_default
                           (D1.lastRequestTime st !! D1.debounceKey digest env req) 0)
              D1.DEBOUNCE_MS) as [Hlt|Hge].
  { rewrite post_too_fast by done. done. }
  destruct (post_effect digest env req st Hopen Hge) as (_ & Htab & Hcl & Hm).
  rewrite Htab, Hcl, Hm. repeat split.
  - intros k Hk. destruct (match _ with Some _ => _ | None => _ end); [|done].
    by rewrite lookup_insert_ne.
  - intros s Hs. by rewrite lookup_insert_ne.
  - intros dk Hdk. by rewrite lookup_insert_ne.
Qed.

(** X10: the ceiling of the D1 worker over any sequence of calls.  When
    the per-request ceiling is not above the per-client one, and no row is
    above the per-client ceiling to begin with, no row is above it after
    any sequence of GETs, POSTs and runs of the compactor. *)
Theorem d1_ceiling_kept
    (digest : list byte -> list byte) (env : Env)
    (events : list D1.event) (st : D1.state) :
  D1.getMaxClapsPerRequest env <= D1.getMaxClapsPerIp env ->
  within (D1.getMaxClapsPerIp env) (D1.DB st) ->
  within (D1.getMaxClapsPerIp env) (D1.DB (D1.handle_all digest env events st)).
Proof.
  intros HRL. revert st. induction events as [|e events IH]; intros st Hw; [done|].
  simpl. apply IH. by apply rate_limits_within.
Qed.

Lemma d1_ceiling_kept_witness :
  within 50 (D1.DB (D1.handle_all Sha256.digest Sample.env
                      (Sample.fifty ++ [D1.POST (Sample.clap "203.0.113.7" 1 (Sample.t0 + 5000))])
                      Sample.empty)).
Proof.
  apply (d1_ceiling_kept Sha256.digest Sample.env
           (Sample.fifty ++ [D1.POST (Sample.clap "203.0.113.7" 1 (Sample.t0 + 5000))])
           Sample.empty).
  - vm_compute. discriminate.
  - apply map_Forall_empty.
Defined.

(** X11: the counters of the D1 worker over any sequence of calls.  When
    the per-request ceiling is at least 1, no sequence of GETs, POSTs and
    runs of the compactor lowers the count of any slug. *)
Theorem d1_counter_never_decreases
    (digest : list byte -> list byte) (env : Env)
    (events : list D1.event) (st : D1.state) (s : string) :
  1 <= D1.getMaxClapsPerRequest env ->
  D1.count_of st s <= D1.count_of (D1.handle_all digest env events st) s.
Proof.
  intros HR. revert st. induction events as [|e events IH]; intros st; [done|].
  simpl. etrans; [|apply IH]. by apply count_of_monotone.
Qed.

Lemma d1_counter_never_decreases_witness :
  D1.count_of Sample.empty "hello-world" <=
  D1.count_of (D1.handle_all Sha256.digest Sample.env
                 (Sample.fifty ++ [D1.CRON (Sample.t0 + 90000000)]) Sample.empty)
              "hello-world".
Proof.
  apply (d1_counter_never_decreases Sha256.digest Sample.env
           (Sample.fifty ++ [D1.CRON (Sample.t0 + 90000000)]) Sample.empty "hello-world").
  vm_compute. discriminate.
Defined.

(** X12: the increment of the D1 worker.  Whenever the per-request
    ceiling R is at least 1, the increment is an integer from 1 to R for
    every body; it is the integer part of a numeric count between 1 and R;
    and it is 1 when the body does not parse, is null, has no count, or
    has a count that is no finite number. *)
Theorem d1_increment_normalised (env : Env) (b : Js.body) :
  let R := D1.getMaxClapsPerRequest env in
  1 <= R ->
  1 <= D1.incrementBy env b <= R /\
  (forall q, b = Js.BodyValue (Js.VNum (Js.Fin q)) ->
             (1 <= q)%Q -> (q <= inject_Z R)%Q -> D1.incrementBy env b = Qfloor q) /\
  (b = Js.BodyInvalid \/ b = Js.BodyNull \/ b = Js.BodyValue Js.VUndefined \/
   (exists v, b = Js.BodyValue v /\
              (Js.Number v = Js.NaN \/ Js.Number v = Js.PInf \/ Js.Number v = Js.NInf)) ->
   D1.incrementBy env b = 1).
Proof.
  intros R HR. split; [by apply incrementBy_clamped|]. split.
  - intros q -> H1 H2. by apply incrementBy_floor.
  - by apply incrementBy_default.
Qed.

Lemma d1_increment_normalised_witness :
  D1.incrementBy Sample.env (Js.BodyValue (Js.VNum (Js.Fin (37 # 10)))) = 3.
Proof.
  pose proof (d1_increment_normalised Sample.env
                (Js.BodyValue (Js.VNum (Js.Fin (37 # 10))))) as H.
  cbv zeta in H. destruct H as (_ & H & _); [vm_compute; discriminate|].
  apply (H (37 # 10)); [reflexivity|vm_compute; discriminate|vm_compute; discriminate].
Defined.

(** * More on the window compactor *)

Section CompactorMore.
Implicit Types t : gmap (string * string * Z) D1.rate_limits_row.

Lemma select_expired_NoDup cutoff limit t :
  NoDup (D1.select_expired cutoff limit t).*1.
Proof.
  unfold D1.select_expired.
  eapply sublist_NoDup; [|apply fmap_sublist, sublist_take].
  rewrite merge_sort_Permutation.
  apply (sublist_NoDup _ (map_to_list t).*1); [apply NoDup_fst_map_to_list|].
  apply fmap_sublist, sublist_filter.
Qed.

Lemma delete_rows_size (rows : list (string * string * Z * D1.rate_limits_row)) t :
  NoDup rows.*1 -> (forall kv, kv ∈ rows -> is_Some (t !! kv.1)) ->
  (size (D1.delete_rows rows t) + length rows = size t)%nat.
Proof.
  induction rows as [|kv rows IH]; intros Hnd Hin; [simpl; lia|].
  rewrite fmap_cons in Hnd. apply NoDup_cons in Hnd as [Hnotin Hnd].
  change (D1.delete_rows (kv :: rows) t) with (delete kv.1 (D1.delete_rows rows t)).
  rewrite map_size_delete_Some.
  - specialize (IH Hnd). simpl.
    assert (size (D1.delete_rows rows t) + length rows = size t)%nat as Heq.
    { apply IH. intros kv' Hkv'. apply Hin. by apply elem_of_cons; right. }
    assert (size (D1.delete_rows rows t) <> 0)%nat.
    { intros H0. apply map_size_empty_inv in H0.
      destruct (Hin kv) as [r Hr]; [apply elem_of_cons; auto|].
      assert (D1.delete_rows rows t !! kv.1 = Some r) as Hl.
      { rewrite delete_rows_lookup. by rewrite decide_False. }
      rewrite H0 in Hl. by rewrite lookup_empty in Hl. }
    lia.
  - rewrite delete_rows_lookup. rewrite decide_False by done.
    apply Hin. apply elem_of_cons; auto.
Qed.

Lemma delete_selected_count cutoff limit t :
  (size (D1.delete_rows (D1.select_expired cutoff limit t) t)
   + length (D1.select_expired cutoff limit t) = size t)%nat.
Proof.
  apply delete_rows_size; [apply select_expired_NoDup|].
  intros kv Hkv. apply select_expired_elem in Hkv as [Hkv _]. eauto.
Qed.

(** The changes the statements of a run report add up to the number of
    rows that are gone. *)
Lemma scheduled_loop_sum fuel cutoff d d' cs :
  D1.scheduled_loop fuel cutoff d = Some (d', cs) ->
  foldr Z.add 0 cs + Z.of_nat (size (D1.rate_limits d')) =
  Z.of_nat (size (D1.rate_limits d)).
Proof.
  revert d d' cs. induction fuel as [|fuel IH]; intros d d' cs; [done|].
  simpl.
  pose proof (delete_selected_count cutoff D1.BATCH_SIZE (D1.rate_limits d)) as Hcount.
  destruct (Z.of_nat (length _) <? D1.BATCH_SIZE).
  - intros [= <- <-]. simpl. lia.
  - destruct (D1.scheduled_loop fuel cutoff _) as [[d'' cs']|] eqn:Hloop; [|done].
    intros [= <- <-]. apply IH in Hloop. simpl in *. lia.
Qed.

Lemma size_expired cutoff t :
  Nat.add (size (filter (fun kv => kv.1.2 < cutoff) t))
          (size (filter (fun kv => cutoff <= kv.1.2) t)) = size t.
Proof.
  rewrite <- (map_filter_union_complement (fun kv => kv.1.2 < cutoff) t) at 3.
  rewrite map_size_disj_union by apply map_disjoint_filter_complement.
  f_equal. f_equal. apply map_filter_ext. intros k r _. simpl. lia.
Qed.

Lemma all_full (cs : list Z) :
  Forall (fun c => c = D1.BATCH_SIZE) cs ->
  cs = repeat 1000 (length cs) /\ foldr Z.add 0 cs = 1000 * Z.of_nat (length cs).
Proof.
  induction 1 as [|c cs -> _ [IH1 IH2]]; [done|].
  split; [simpl; by rewrite <- IH1|].
  cbn [foldr length]. rewrite IH2. unfold D1.BATCH_SIZE. lia.
Qed.

(** What a run of the compactor leaves, as a state. *)
Lemma handle_CRON digest env n st :
  D1.handle digest env (D1.CRON n) st =
    {| D1.DB := {| D1.claps := D1.claps (D1.DB st);
                   D1.rate_limits :=
                     filter (fun kv => n - 2 * 60 * 60 * 1000 <= kv.1.2)
                            (D1.rate_limits (D1.DB st)) |};
       D1.lastRequestTime := D1.lastRequestTime st |}.
Proof.
  simpl. unfold D1.scheduled.
  destruct (scheduled_loop_spec (S (size (D1.rate_limits (D1.DB st))))
              (n - 2 * 60 * 60 * 1000) (D1.DB st))
    as (d' & cs & last & -> & H2 & H3 & _); [lia|].
  destruct d' as [c r]. simpl in *. by rewrite H2, H3.
Qed.

Lemma post_closed digest env req :
  isValidSlug (slug req) && allowed_origin env req = false ->
  exists r, forall st, D1.serve (D1.post digest env req) st = (r, st, []).
Proof.
  unfold D1.serve, D1.post, allowed_origin. intros H.
  destruct (isValidSlug (slug req)); simpl in *; [|by eexists].
  destruct (origin req) as [o|]; [|by eexists].
  destruct (String.eqb o ""); simpl in *; [by eexists|].
  rewrite H. simpl. by eexists.
Qed.

End CompactorMore.

(** X13: the compactor and a POST do not get in each other's way.  For a
    run of the compactor started at time n and a POST whose clock reads
    n - W or later, handling the run and then the POST leaves the state
    that handling the POST and then the run leaves, and the POST is
    answered the same with or without the run before it: the rows the run
    deletes are of windows that no such request looks at. *)
Theorem compactor_commutes_with_post
    (digest : list byte -> list byte) (env : Env) (n : Z) (req : Request) (st : D1.state) :
  n - D1.RATE_LIMIT_WINDOW_MS <= now req ->
  D1.handle digest env (D1.POST req) (D1.handle digest env (D1.CRON n) st) =
  D1.handle digest env (D1.CRON n) (D1.handle digest env (D1.POST req) st) /\
  (D1.serve (D1.post digest env req) (D1.handle digest env (D1.CRON n) st)).1.1 =
  (D1.serve (D1.post digest env req) st).1.1.
Proof.
  intros Hn.
  assert (Hws : n - 2 * 60 * 60 * 1000 <= D1.windowStart (now req)).
  { pose proof (windowStart_spec (now req)) as [Hw _]. cbv zeta in Hw.
    unfold D1.RATE_LIMIT_WINDOW_MS in *. lia. }
  rewrite (handle_CRON digest env n (D1.handle digest env (D1.POST req) st)).
  rewrite (handle_CRON digest env n st).
  set (swept := {| D1.DB := _; D1.lastRequestTime := D1.lastRequestTime st |}).
  cbn [D1.handle].
  destruct (isValidSlug (slug req) && allowed_origin env req) eqn:Hopen.
  2:{ destruct (post_closed digest env req Hopen) as (r & Hr). by rewrite !Hr. }
  destruct (Z.lt_ge_cases
              (now req - Js.or_default
                           (D1.lastRequestTime st !! D1.debounceKey digest env req) 0)
              D1.DEBOUNCE_MS) as [Hlt|Hge].
  { rewrite (post_too_fast digest env req st) by done.
    rewrite (post_too_fast digest env req swept) by done. done. }
  destruct (post_effect digest env req st Hopen Hge) as (Hr & Htab & Hcl & Hm).
  destruct (post_effect digest env req swept Hopen Hge) as (Hr' & Htab' & Hcl' & Hm').
  assert (Hrow : D1.rate_limits (D1.DB swept)
                   !! (D1.sha256Hex digest env (getClientIp req), slug req,
                       D1.windowStart (now req)) =
                 D1.rate_limits (D1.DB st)
                   !! (D1.sha256Hex digest env (getClientIp req), slug req,
                       D1.windowStart (now req))).
  { simpl. rewrite map_lookup_filter.
    destruct (D1.rate_limits (D1.DB st) !! _) as [r|]; [|done]. simpl.
    by rewrite option_guard_True. }
  assert (Hcount : D1.count_of swept (slug req) = D1.count_of st (slug req)) by done.
  rewrite Hrow in Hr', Htab'. rewrite Hcount in Hr', Hcl'.
  split; [|by rewrite Hr, Hr'].
  destruct (D1.serve (D1.post digest env req) st) as [[r1 [d1 m1]] o1].
  destruct (D1.serve (D1.post digest env req) swept) as [[r2 [d2 m2]] o2].
  destruct d1 as [c1 t1], d2 as [c2 t2]. simpl in *. subst.
  f_equal. f_equal.
  destruct (match D1.rate_limits (D1.DB st) !! _ with Some _ => _ | None => _ end); [|done].
  by rewrite map_filter_insert_True.
Qed.

Lemma compactor_commutes_with_post_witness :
  let st := D1.handle_all Sha256.digest Sample.env Sample.fifty Sample.empty in
  let req := Sample.clap "203.0.113.7" 1 (Sample.t0 + 5000) in
  (D1.serve (D1.post Sha256.digest Sample.env req)
     (D1.handle Sha256.digest Sample.env (D1.CRON (Sample.t0 + 3600000)) st)).1.1 =
  {| D1.status := 429; D1.json := D1.RateLimitExceeded |}.
Proof.
  pose proof (compactor_commutes_with_post Sha256.digest Sample.env (Sample.t0 + 3600000)
                (Sample.clap "203.0.113.7" 1 (Sample.t0 + 5000))
                (D1.handle_all Sha256.digest Sample.env Sample.fifty Sample.empty)) as H.
  destruct H as [_ H]; [vm_compute; discriminate|].
  cbv zeta. etrans; [exact H|]. vm_compute. reflexivity.
Defined.

(** X14: a run of the compactor right after another finds nothing to
    delete.  After a run started at time n, a run started at n or earlier
    sends one DELETE, which deletes no row, and leaves the database as it
    is. *)
Theorem compactor_second_run_deletes_nothing (n n' : Z) (d : D1.db) :
  n' <= n ->
  exists d' cs, D1.scheduled n d = Some (d', cs) /\ D1.scheduled n' d' = Some (d', [0]).
Proof.
  intros Hle. unfold D1.scheduled at 1.
  destruct (scheduled_loop_spec (S (size (D1.rate_limits d)))
              (n - 2 * 60 * 60 * 1000) d) as (d' & cs & last & -> & H2 & H3 & _); [lia|].
  exists d', (cs ++ [last])%list. split; [done|].
  unfold D1.scheduled. simpl.
  assert (Hnone : D1.select_expired (n' - 2 * 60 * 60 * 1000) D1.BATCH_SIZE
                    (D1.rate_limits d') = []).
  { apply elem_of_nil_inv. intros kv Hkv.
    apply select_expired_elem in Hkv as [Hkv Hlt].
    rewrite H2 in Hkv. apply map_lookup_filter_Some in Hkv as [_ Hge]. simpl in Hge. lia. }
  rewrite Hnone. simpl. by destruct d'.
Qed.

Lemma compactor_second_run_deletes_nothing_witness :
  exists d' cs,
    D1.scheduled (Sample.t0 + 90000000)
      (D1.DB (D1.handle_all Sha256.digest Sample.env Sample.fifty Sample.empty)) =
      Some (d', cs) /\
    D1.scheduled Sample.t0 d' = Some (d', [0]).
Proof.
  apply (compactor_second_run_deletes_nothing (Sample.t0 + 90000000) Sample.t0).
  vm_compute. discriminate.
Defined.

(** X15: the statements a run of the compactor sends.  When e rows are
    older than the cutoff now - 2W, the run sends e / 1000 + 1 DELETE
    statements: e / 1000 that delete 1000 rows each, then one that deletes
    the e mod 1000 rows that are left (none, when e is a multiple of
    1000). *)
Theorem compactor_batches (n : Z) (d : D1.db) :
  let cutoff := n - 2 * D1.RATE_LIMIT_WINDOW_MS in
  let e := size (filter (fun kv => kv.1.2 < cutoff) (D1.rate_limits d)) in
  exists d',
    D1.scheduled n d =
      Some (d', (repeat 1000 (e / 1000) ++ [Z.of_nat (e mod 1000)])%list).
Proof.
  intros cutoff e.
  assert (Hcut : cutoff = n - 2 * 60 * 60 * 1000)
    by (unfold cutoff, D1.RATE_LIMIT_WINDOW_MS; lia).
  unfold D1.scheduled. rewrite <- Hcut.
  destruct (scheduled_loop_spec (S (size (D1.rate_limits d))) cutoff d)
    as (d' & cs & last & Hloop & H2 & _ & Hfull & Hlast); [lia|].
  exists d'. rewrite Hloop. do 2 f_equal.
  pose proof (scheduled_loop_sum _ _ _ _ _ Hloop) as Hsum.
  rewrite H2 in Hsum. pose proof (size_expired cutoff (D1.rate_limits d)) as He.
  fold e in He. destruct (all_full cs Hfull) as [Hrep Hcs].
  rewrite foldr_app in Hsum. simpl in Hsum.
  assert (Hsum' : foldr Z.add 0 cs + last = Z.of_nat e).
  { clear -Hsum He.
    assert (forall (l : list Z) a, foldr Z.add a l = foldr Z.add 0 l + a) as Hf.
    { induction l as [|x l IH]; intros a; simpl; [lia|]. rewrite IH. lia. }
    rewrite Hf in Hsum. lia. }
  rewrite Hcs in Hsum'. unfold D1.BATCH_SIZE in Hlast.
  assert (Hdm : (e = 1000 * length cs + Z.to_nat last)%nat) by lia.
  assert (Hq : (e / 1000 = length cs)%nat).
  { rewrite Hdm, Nat.mul_comm, Nat.div_add_l by lia.
    rewrite Nat.div_small by lia. lia. }
  assert (Hr : (e mod 1000 = Z.to_nat last)%nat).
  { rewrite Hdm, Nat.add_comm, Nat.mul_comm, Nat.Div0.mod_add.
    apply Nat.mod_small. lia. }
  rewrite Hq, Hr, <- Hrep. f_equal. f_equal. lia.
Qed.

(** * More on the identity hasher *)

Section Sha256Length.
Import Sha256.

Lemma round_length k wt s : length s = 8%nat -> length (round k wt s) = 8%nat.
Proof.
  intros H. destruct s as [|a [|b [|c [|d [|e [|f [|g [|h [|i s]]]]]]]]]; done.
Qed.

Lemma rounds_length ks win s : length s = 8%nat -> length (rounds ks win s) = 8%nat.
Proof.
  revert win s. induction ks as [|k ks IH]; intros win s H; [done|].
  simpl. by apply IH, round_length.
Qed.

Lemma compress_length h block : length h = 8%nat -> length (compress h block) = 8%nat.
Proof.
  intros H. unfold compress. rewrite length_zip_with, rounds_length by done. lia.
Qed.

Lemma digest_words_length msg : length (digest_words msg) = 8%nat.
Proof.
  unfold digest_words. generalize (chunks (length (words (pad msg))) (words (pad msg))).
  intros cs. assert (length H0 = 8%nat) as H by done. revert H. generalize H0.
  induction cs as [|c cs IH]; intros h H; [done|]. simpl. by apply IH, compress_length.
Qed.

Lemma be_bytes_bytes n x :
  Forall (fun z => 0 <= z < 256) (be_bytes n x).
Proof.
  unfold be_bytes. apply Forall_map, Forall_forall. intros i _. simpl.
  apply Z.mod_pos_bound. lia.
Qed.

Lemma omap_bytes_length (zs : list Z) :
  Forall (fun z => 0 <= z < 256) zs ->
  length (omap (fun z => Byte.of_N (Z.to_N z)) zs) = length zs.
Proof.
  induction 1 as [|z zs Hz _ IH]; [done|].
  change (omap ?f (z :: zs))
    with (match f z with Some y => y :: omap f zs | None => omap f zs end).
  destruct (Byte.of_N (Z.to_N z)) as [b|] eqn:Hb; [cbn [length]; by rewrite IH|].
  apply Byte.of_N_None_iff in Hb. lia.
Qed.

Lemma digest_length data : length (digest data) = 32%nat.
Proof.
  unfold digest. rewrite omap_bytes_length.
  - pose proof (digest_words_length (map (fun b => Z.of_N (Byte.to_N b)) data)) as H.
    destruct (digest_words _) as [|a [|b [|c [|d [|e [|f [|g [|h [|i s]]]]]]]]];
      try done.
  - generalize (digest_words (map (fun b => Z.of_N (Byte.to_N b)) data)).
    induction l as [|w ws IH]; [done|].
    change (flat_map (be_bytes 4) (w :: ws))
      with (be_bytes 4 w ++ flat_map (be_bytes 4) ws)%list.
    apply Forall_app. split; [apply be_bytes_bytes|done].
Qed.

End Sha256Length.

Lemma all_chars_app p s1 s2 :
  all_chars p (s1 +:+ s2) = all_chars p s1 && all_chars p s2.
Proof. induction s1 as [|c s1 IH]; simpl; [done|]. by rewrite IH, andb_assoc. Qed.

Lemma hex2_chars (b : byte) : all_chars hex_char (padStart2 (toString16 b)) = true.
Proof. destruct b; vm_compute; reflexivity. Qed.

Lemma hex_of_bytes_chars (bs : list byte) :
  all_chars hex_char (hex_of_bytes bs) = true /\
  String.length (hex_of_bytes bs) = (2 * length bs)%nat.
Proof.
  induction bs as [|b bs [IH1 IH2]]; [done|].
  rewrite hex_of_bytes_cons, all_chars_app, string_length_app, hex2_chars, IH1, IH2.
  split; [done|]. destruct (hex2_shape b) as (c1 & c2 & ->). simpl. lia.
Qed.

(** A text of hexadecimal digits, a colon and a rest: the colon found
    first is the one that was put in. *)
Lemma hex_colon_inj (h1 h2 a b : string) :
  all_chars hex_char h1 = true -> all_chars hex_char h2 = true ->
  h1 +:+ ":" +:+ a = h2 +:+ ":" +:+ b -> h1 = h2 /\ a = b.
Proof.
  revert h2. induction h1 as [|c h1 IH]; intros [|c' h2] H1 H2 Heq; simpl in *.
  - by simplify_eq.
  - by simplify_eq.
  - by simplify_eq.
  - injection Heq as -> Heq.
    apply andb_prop in H1 as [_ H1]. apply andb_prop in H2 as [_ H2].
    destruct (IH h2 H1 H2 Heq) as [-> ->]. done.
Qed.

Lemma string_app_inv_head (s t1 t2 : string) : s +:+ t1 = s +:+ t2 -> t1 = t2.
Proof. induction s as [|c s IH]; simpl; [done|]. intros [= H]. by apply IH. Qed.

(** X16: the shape of a client token.  Whatever the digest, the token
    consists of the characters 0-9 and a-f only, two for each byte of the
    digest; with SHA-256 it is 64 characters long, for every salt and
    address. *)
Theorem token_is_hexadecimal
    (digest : list byte -> list byte) (env : Env) (address : string) :
  let salted := encode (default "" (IP_HASH_SALT env) +:+ ":" +:+ address) in
  all_chars hex_char (D1.sha256Hex digest env address) = true /\
  String.length (D1.sha256Hex digest env address) = (2 * length (digest salted))%nat /\
  String.length (D1.sha256Hex Sha256.digest env address) = 64%nat.
Proof.
  intros salted. unfold D1.sha256Hex. fold salted.
  destruct (hex_of_bytes_chars (digest salted)) as [H1 H2].
  destruct (hex_of_bytes_chars (Sha256.digest salted)) as [_ H3].
  rewrite digest_length in H3. done.
Qed.

(** X17: the debounce key tells the pairs apart.  Two requests have the
    same key in the Map exactly when they have the same client token and
    the same slug, although a slug may itself contain colons: a token
    never does. *)
Theorem debounceKey_injective
    (digest : list byte -> list byte) (env : Env) (r1 r2 : Request) :
  D1.debounceKey digest env r1 = D1.debounceKey digest env r2 <->
  D1.sha256Hex digest env (getClientIp r1) = D1.sha256Hex digest env (getClientIp r2) /\
  slug r1 = slug r2.
Proof.
  unfold D1.debounceKey. split; [|by intros [-> ->]].
  apply hex_colon_inj; apply hex_of_bytes_chars.
Qed.

(** X18: clients with different addresses are kept apart.  Two requests
    whose addresses differ have different tokens, hence different debounce
    keys and different rows of the limiter, unless the digest collides on
    the two salted addresses. *)
Theorem tokens_separate_addresses
    (digest : list byte -> list byte) (env : Env) (r1 r2 : Request) :
  let salt := default "" (IP_HASH_SALT env) in
  getClientIp r1 <> getClientIp r2 ->
  collision_free_on digest
    (encode (salt +:+ ":" +:+ getClientIp r1)) (encode (salt +:+ ":" +:+ getClientIp r2)) ->
  D1.sha256Hex digest env (getClientIp r1) <> D1.sha256Hex digest env (getClientIp r2) /\
  D1.debounceKey digest env r1 <> D1.debounceKey digest env r2 /\
  (forall ws1 ws2 : Z,
     (D1.sha256Hex digest env (getClientIp r1), slug r1, ws1) <>
     (D1.sha256Hex digest env (getClientIp r2), slug r2, ws2)).
Proof.
  intros salt Hne Hfree.
  assert (Htok : D1.sha256Hex digest env (getClientIp r1) <>
                 D1.sha256Hex digest env (getClientIp r2)).
  { unfold D1.sha256Hex. fold salt. intros Heq. apply Hne.
    apply hex_of_bytes_inj, Hfree, encode_inj in Heq.
    apply string_app_inv_head in Heq. simpl in Heq. by injection Heq. }
  split; [done|]. split.
  - intros Hk. apply Htok. unfold D1.debounceKey in Hk.
    by apply hex_colon_inj in Hk as [? _]; [|apply hex_of_bytes_chars..].
  - intros ws1 ws2 [= H _ _]. done.
Qed.

Lemma tokens_separate_addresses_witness :
  D1.debounceKey Sha256.digest Sample.env (Sample.clap "203.0.113.7" 1 Sample.t0) <>
  D1.debounceKey Sha256.digest Sample.env (Sample.clap "198.51.100.9" 1 Sample.t0).
Proof.
  apply (tokens_separate_addresses Sha256.digest Sample.env
           (Sample.clap "203.0.113.7" 1 Sample.t0) (Sample.clap "198.51.100.9" 1 Sample.t0)).
  - vm_compute. discriminate.
  - intros H. vm_compute in H. discriminate H.
Defined.

(** * The token under two salts *)

Lemma string_app_assoc (x y z : string) : (x +:+ y) +:+ z = x +:+ (y +:+ z).
Proof.
  induction x as [|c x IH]; [done|].
  change (String c ((x +:+ y) +:+ z) = String c (x +:+ y +:+ z)). by rewrite IH.
Qed.

Lemma string_app_nil_r (x : string) : x +:+ "" = x.
Proof.
  induction x as [|c x IH]; [done|]. change (String c (x +:+ "") = String c x).
  by rewrite IH.
Qed.








(** * The allowed origins *)

(** One step of [skip_spaces]: nothing to skip, or a white-space
    character [w] is dropped, whatever follows it. *)
Lemma skip_spaces_step (s : string) :
  (Js.space_width s = 0%nat /\ Js.skip_spaces s = s) \/
  (exists w r, s = w +:+ r /\ w <> "" /\
               forall x, Js.space_width (w +:+ x) = String.length w /\
                         Js.skip_spaces (w +:+ x) = Js.skip_spaces x).
Proof.
  destruct s as [|c1 s1]; [by left|].
  destruct (Js.is_space c1) eqn:H1.
  { right. exists (String c1 ""), s1. split; [done|]. split; [done|].
    intros x. change (String c1 "" +:+ x) with (String c1 x).
    simpl. by rewrite H1. }
  destruct s1 as [|c2 s2]; [left; simpl; by rewrite H1|].
  destruct (Js.is_space2 c1 c2) eqn:H2.
  { right. exists (String c1 (String c2 "")), s2. split; [done|]. split; [done|].
    intros x. change (String c1 (String c2 "") +:+ x) with (String c1 (String c2 x)).
    simpl. by rewrite H1, H2. }
  destruct s2 as [|c3 s3]; [left; simpl; by rewrite H1, H2|].
  destruct (Js.is_space3 c1 c2 c3) eqn:H3.
  { right. exists (String c1 (String c2 (String c3 ""))), s3.
    split; [done|]. split; [done|]. intros x.
    change (String c1 (String c2 (String c3 "")) +:+ x)
      with (String c1 (String c2 (String c3 x))).
    simpl. by rewrite H1, H2, H3. }
  left. simpl. by rewrite H1, H2, H3.
Qed.

Lemma string_length_ind (P : string -> Prop) :
  (forall s, (forall t, (String.length t < String.length s)%nat -> P t) -> P s) ->
  forall s, P s.
Proof.
  intros H s. remember (String.length s) as n eqn:Hn. revert s Hn.
  induction (lt_wf n) as [n _ IH]. intros s ->. apply H.
  intros t Ht. by apply (IH (String.length t)).
Qed.

(** What [skip_spaces] drops is white space, and what it leaves does not
    start with any. *)
Lemma skip_spaces_split (s : string) :
  exists w, s = w +:+ Js.skip_spaces s /\
            (forall x, Js.skip_spaces (w +:+ x) = Js.skip_spaces x) /\
            Js.space_width (Js.skip_spaces s) = 0%nat.
Proof.
  induction s as [s IH] using string_length_ind.
  destruct (skip_spaces_step s) as [[Hw Hs]|(w & r & -> & Hne & Hx)].
  - exists "". rewrite Hs. done.
  - destruct (IH r) as (w' & Hr & Hskip & Hzero).
    { rewrite string_length_app. destruct w; [done|]. simpl. lia. }
    destruct (Hx r) as [_ Hsk]. rewrite Hsk.
    exists (w +:+ w'). split; [|split; [|done]].
    + by rewrite string_app_assoc, <- Hr.
    + intros x. rewrite string_app_assoc. destruct (Hx (w' +:+ x)) as [_ ->].
      apply Hskip.
Qed.

Lemma skip_spaces_fixed (s : string) :
  Js.space_width s = 0%nat -> Js.skip_spaces s = s.
Proof.
  intros Hw. destruct (skip_spaces_step s) as [[_ Hs]|(w & r & -> & Hne & Hx)]; [done|].
  destruct (Hx r) as [Hlen _]. rewrite Hw in Hlen. by destruct w.
Qed.

(** A string that does not start with white space does not start with
    any when it is cut short. *)
Lemma space_width_prefix (t x : string) :
  Js.space_width (t +:+ x) = 0%nat -> Js.space_width t = 0%nat.
Proof.
  intros Hz. destruct (skip_spaces_step t) as [[Hw _]|(w & r & -> & Hne & Hx)]; [done|].
  rewrite string_app_assoc in Hz. destruct (Hx (r +:+ x)) as [Hlen _].
  rewrite Hz in Hlen. by destruct w.
Qed.

Lemma blank_spec (s : string) : Js.blank s = true <-> Js.skip_spaces s = "".
Proof. unfold Js.blank. by destruct (Js.skip_spaces s). Qed.

(** White space in front of a string is skipped whatever follows. *)
Lemma skip_spaces_blank_app (t x : string) :
  Js.skip_spaces t = "" -> Js.skip_spaces (t +:+ x) = Js.skip_spaces x.
Proof.
  intros Ht. destruct (skip_spaces_split t) as (w & Hw & Hskip & _).
  rewrite Ht, string_app_nil_r in Hw. subst w. apply Hskip.
Qed.

(** What [rtrim] drops is white space. *)
Lemma rtrim_split (s : string) :
  exists w, s = Js.rtrim s +:+ w /\ Js.skip_spaces w = "".
Proof.
  induction s as [|c s (w & IH & Hw)]; [by exists ""|].
  cbn [Js.rtrim]. destruct (Js.blank (String c s)) eqn:Hb.
  - exists (String c s). split; [done|]. by apply blank_spec.
  - exists w. split; [|done].
    change (String c s = String c (Js.rtrim s +:+ w)). by rewrite <- IH.
Qed.

Lemma rtrim_idem (s : string) : Js.rtrim (Js.rtrim s) = Js.rtrim s.
Proof.
  induction s as [|c s IH]; [done|].
  cbn [Js.rtrim]. destruct (Js.blank (String c s)) eqn:Hb; [done|].
  cbn [Js.rtrim]. rewrite IH.
  destruct (Js.blank (String c (Js.rtrim s))) eqn:Hb'; [|done].
  apply blank_spec in Hb'. destruct (rtrim_split s) as (w & Hs & Hw).
  assert (Js.blank (String c s) = true) as Hyes; [|congruence].
  apply blank_spec. rewrite Hs.
  change (String c (Js.rtrim s +:+ w)) with (String c (Js.rtrim s) +:+ w).
  by rewrite skip_spaces_blank_app.
Qed.

Lemma rtrim_no_leading (s : string) :
  Js.space_width s = 0%nat -> Js.space_width (Js.rtrim s) = 0%nat.
Proof.
  intros Hz. destruct (rtrim_split s) as (w & Hs & _). rewrite Hs in Hz.
  by apply space_width_prefix in Hz.
Qed.

Lemma trim_idem (s : string) : Js.trim (Js.trim s) = Js.trim s.
Proof.
  unfold Js.trim.
  destruct (skip_spaces_split s) as (w & _ & _ & Hz).
  rewrite (skip_spaces_fixed (Js.rtrim _)) by (by apply rtrim_no_leading).
  apply rtrim_idem.
Qed.

(** A text that trimming leaves alone does not start with white space,
    and no end of it is white space. *)
Lemma trim_fixed_ends (s : string) :
  Js.trim s = s ->
  Js.space_width s = 0%nat /\
  forall t w, s = t +:+ w -> Js.skip_spaces w = "" -> w = "".
Proof.
  intros Ht. assert (Hz : Js.space_width s = 0%nat).
  { rewrite <- Ht. unfold Js.trim.
    destruct (skip_spaces_split s) as (w & _ & _ & Hz). by apply rtrim_no_leading. }
  split; [done|]. intros t w Hs Hw.
  unfold Js.trim in Ht. rewrite skip_spaces_fixed in Ht by done.
  clear Hz. revert s Ht Hs. induction t as [|c t IH]; intros s Ht Hs.
  - change ("" +:+ w) with w in Hs. subst s. destruct w as [|c w]; [done|].
    cbn [Js.rtrim] in Ht. apply blank_spec in Hw. by rewrite Hw in Ht.
  - change (String c t +:+ w) with (String c (t +:+ w)) in Hs. subst s.
    cbn [Js.rtrim] in Ht. destruct (Js.blank _); [done|].
    injection Ht as Ht. by apply (IH (t +:+ w)).
Qed.

Lemma all_chars_skip_spaces p s :
  all_chars p s = true -> all_chars p (Js.skip_spaces s) = true.
Proof.
  destruct (skip_spaces_split s) as (w & Hs & _). rewrite Hs at 1.
  rewrite all_chars_app. by intros [_ ?]%andb_prop.
Qed.

Lemma all_chars_rtrim p s : all_chars p s = true -> all_chars p (Js.rtrim s) = true.
Proof.
  destruct (rtrim_split s) as (w & Hs & _). rewrite Hs at 1.
  rewrite all_chars_app. by intros [? _]%andb_prop.
Qed.

Lemma split_comma_pieces s : Forall (fun p => comma_free p = true) (Js.split_comma s).
Proof.
  induction s as [|c s IH]; [by constructor|]. simpl.
  destruct (Ascii.eqb c ",") eqn:Hc; [by constructor|].
  destruct (Js.split_comma s) as [|x xs].
  - constructor; [|done]. unfold comma_free. simpl. by rewrite Hc.
  - apply Forall_cons in IH as [Hx Hxs]. constructor; [|done].
    unfold comma_free in *. simpl. by rewrite Hc, Hx.
Qed.

Lemma split_comma_free o : comma_free o = true -> Js.split_comma o = [o].
Proof.
  unfold comma_free. induction o as [|c o IH]; [done|]. simpl.
  intros [Hc Ho]%andb_prop. apply negb_true_iff in Hc. by rewrite Hc, IH.
Qed.

Lemma split_comma_app o s :
  comma_free o = true -> Js.split_comma (o +:+ "," +:+ s) = o :: Js.split_comma s.
Proof.
  unfold comma_free. induction o as [|c o IH]; [done|]. simpl.
  intros [Hc Ho]%andb_prop. apply negb_true_iff in Hc. by rewrite Hc, IH.
Qed.

Lemma split_comma_concat (os : list string) :
  os <> [] -> Forall (fun o => comma_free o = true) os ->
  Js.split_comma (String.concat "," os) = os.
Proof.
  induction os as [|o os IH]; [done|]. intros _ [Ho Hos]%Forall_cons.
  destruct os as [|o' os]; [by apply split_comma_free|].
  change (String.concat "," (o :: o' :: os))
    with (o +:+ "," +:+ String.concat "," (o' :: os)).
  rewrite split_comma_app by done. f_equal. by apply IH.
Qed.

(** X19: what the set of allowed origins can hold.  Every member is a
    non-empty text without a comma that trimming leaves alone: it does
    not start with a white-space character, and no end of it is white
    space, the white space being that of String.prototype.trim (U+00A0,
    U+2028, U+FEFF and the like as well as blanks and tabs).  So an
    Origin header that is empty, has a comma, or begins or ends with
    white space is never among the allowed ones, whatever ALLOWED_ORIGINS
    is. *)
Theorem allowed_origins_members (env : Env) (o : string) :
  o ∈ getAllowedOrigins env ->
  o <> "" /\ comma_free o = true /\ Js.trim o = o /\
  Js.space_width o = 0%nat /\
  (forall t w, o = t +:+ w -> Js.skip_spaces w = "" -> w = "").
Proof.
  unfold getAllowedOrigins. intros [Hne Hin]%list_elem_of_filter.
  apply list_elem_of_fmap in Hin as (p & -> & Hp). split; [done|].
  split; [|split; [apply trim_idem|apply trim_fixed_ends, trim_idem]].
  pose proof (split_comma_pieces (default "" (ALLOWED_ORIGINS env))) as Hall.
  rewrite Forall_forall in Hall. specialize (Hall p Hp).
  unfold comma_free, Js.trim in *. by apply all_chars_rtrim, all_chars_skip_spaces.
Qed.

Lemma allowed_origins_members_witness :
  let nbsp := String "194" (String "160" "") in
  let line_separator := String "226" (String "128" (String "168" "")) in
  let env := {| ALLOWED_ORIGINS :=
                  Some ("https://a.dev," +:+ nbsp +:+ "https://b.dev" +:+ line_separator
                        +:+ " ,,");
                IP_HASH_SALT := None; MAX_CLAPS_PER_IP := None;
                MAX_CLAPS_PER_REQUEST := None |} in
  getAllowedOrigins env = ["https://a.dev"; "https://b.dev"] /\
  Js.trim "https://b.dev" = "https://b.dev".
Proof.
  cbv zeta. split; [vm_compute; reflexivity|].
  assert ("https://b.dev" ∈ getAllowedOrigins
            {| ALLOWED_ORIGINS :=
                 Some ("https://a.dev," +:+ String "194" (String "160" "")
                       +:+ "https://b.dev"
                       +:+ String "226" (String "128" (String "168" "")) +:+ " ,,");
               IP_HASH_SALT := None; MAX_CLAPS_PER_IP := None;
               MAX_CLAPS_PER_REQUEST := None |}) as Hin.
  { vm_compute. apply elem_of_cons. right. apply elem_of_cons. by left. }
  exact (proj1 (proj2 (proj2 (allowed_origins_members _ _ Hin)))).
Defined.

(** X20: the configuration read back.  When ALLOWED_ORIGINS is a list
    of origins joined by commas, each a non-empty text without a comma
    that trimming leaves alone (no white space at either end, that of
    String.prototype.trim), the set of allowed origins holds exactly
    these origins. *)
Theorem allowed_origins_of_joined (env : Env) (origins : list string) :
  Forall (fun o => o <> "" /\ comma_free o = true /\ Js.trim o = o) origins ->
  ALLOWED_ORIGINS env = Some (String.concat "," origins) ->
  getAllowedOrigins env = origins.
Proof.
  intros Hall Henv. unfold getAllowedOrigins. rewrite Henv. simpl.
  destruct origins as [|o os]; [done|].
  rewrite split_comma_concat; [|done|].
  2:{ eapply Forall_impl; [exact Hall|]. by intros x (_ & Hx & _). }
  revert Hall. generalize (o :: os). clear. intros l Hall.
  induction Hall as [|x xs (Hne & _ & Htrim) _ IH]; [done|].
  rewrite fmap_cons, Htrim. rewrite filter_cons_True by exact Hne. by rewrite IH.
Qed.

Lemma allowed_origins_of_joined_witness :
  getAllowedOrigins {| ALLOWED_ORIGINS := Some "https://a.dev,https://b.dev";
                       IP_HASH_SALT := None; MAX_CLAPS_PER_IP := None;
                       MAX_CLAPS_PER_REQUEST := None |} =
  ["https://a.dev"; "https://b.dev"].
Proof.
  apply (allowed_origins_of_joined _ ["https://a.dev"; "https://b.dev"]).
  - repeat constructor; done.
  - reflexivity.
Defined.

(** X21: the cache of the D1 worker is transparent.  Over any sequence
    of calls on any env objects, starting with the cache empty, each call
    of getAllowedOrigins returns the set that parsing the ALLOWED_ORIGINS
    of its env object gives, whether it is computed or taken from the
    cache. *)
Theorem allowed_origins_cache_transparent
    (objects : positive -> Env) (refs : list positive) :
  getAllowedOrigins_calls objects refs ∅ =
  (fun ref => getAllowedOrigins (objects ref)) <$> refs.
Proof.
  assert (forall cache,
            (forall ref set, cache !! ref = Some set ->
                             set = getAllowedOrigins (objects ref)) ->
            getAllowedOrigins_calls objects refs cache =
            (fun ref => getAllowedOrigins (objects ref)) <$> refs) as H.
  { induction refs as [|ref refs IH]; intros cache Hc; [done|].
    simpl. unfold getAllowedOrigins_cached.
    destruct (cache !! ref) as [set|] eqn:Href.
    - rewrite (Hc ref set Href). f_equal. by apply IH.
    - f_equal. apply IH. intros ref' set'.
      destruct (decide (ref = ref')) as [<-|Hne].
      + rewrite lookup_insert_eq. by intros [= <-].
      + rewrite lookup_insert_ne by done. apply Hc. }
  apply H. intros ref set. by rewrite lookup_empty.
Qed.

Lemma post_forbidden digest env req st :
  isValidSlug (slug req) = true -> allowed_origin env req = false ->
  D1.serve (D1.post digest env req) st =
    ({| D1.status := 403; D1.json := D1.Forbidden |}, st, []).
Proof.
  unfold D1.serve, D1.post, allowed_origin. intros -> H. simpl.
  destruct (origin req) as [o|]; [|done].
  destruct (String.eqb o ""); [done|]. simpl in H. by rewrite H.
Qed.

Lemma cors_origin_None env req :
  cors_origin env (origin req) = None <-> allowed_origin env req = false.
Proof.
  unfold cors_origin, allowed_origin. destruct (origin req) as [o|]; [|done].
  destruct (String.eqb o ""); [done|]. simpl. by destruct (has _ o).
Qed.

(** X22: the Origin check of the D1 worker's POST and the CORS callback
    agree.  A POST for a valid slug is answered 403 "Forbidden" exactly
    when the callback returns null for its Origin header, and then nothing
    is looked up or written; when the callback returns an origin, it is
    the header itself, and one of the allowed origins; with
    ALLOWED_ORIGINS unset or empty the callback returns null for every
    request, so that no POST gets through. *)
Theorem d1_origin_check_agrees_with_cors
    (digest : list byte -> list byte) (env : Env) (req : Request) (st : D1.state) :
  isValidSlug (slug req) = true ->
  let out := D1.serve (D1.post digest env req) st in
  (D1.json out.1.1 = D1.Forbidden <-> cors_origin env (origin req) = None) /\
  (D1.json out.1.1 = D1.Forbidden ->
   out = ({| D1.status := 403; D1.json := D1.Forbidden |}, st, [])) /\
  (forall o, cors_origin env (origin req) = Some o ->
             origin req = Some o /\ o ∈ getAllowedOrigins env) /\
  (ALLOWED_ORIGINS env = None \/ ALLOWED_ORIGINS env = Some "" ->
   cors_origin env (origin req) = None).
Proof.
  intros Hv out.
  assert (Hiff : D1.json out.1.1 = D1.Forbidden <-> allowed_origin env req = false).
  { unfold out. destruct (allowed_origin env req) eqn:Hopen.
    - split; [|done]. intros Hf. exfalso.
      destruct (Z.lt_ge_cases
                  (now req - Js.or_default
                               (D1.lastRequestTime st !! D1.debounceKey digest env req) 0)
                  D1.DEBOUNCE_MS) as [Hlt|Hge].
      + rewrite post_too_fast in Hf by (by rewrite ?Hv, ?Hopen). done.
      + destruct (post_effect digest env req st) as (Hr & _);
          [by rewrite Hv, Hopen|done|].
        rewrite Hr in Hf.
        by destruct (match D1.rate_limits (D1.DB st) !! _ with
                     | Some _ => _ | None => _ end).
    - by rewrite post_forbidden. }
  split; [by rewrite cors_origin_None|]. split; [|split].
  - intros Hf%Hiff. by apply post_forbidden.
  - intros o. unfold cors_origin, has. destruct (origin req) as [o'|]; [|done].
    destruct (String.eqb o' ""); [done|]. case_bool_decide; [|done].
    by intros [= <-].
  - intros Hunset. apply cors_origin_None. unfold allowed_origin, has.
    destruct (origin req) as [o|]; [|done].
    replace (getAllowedOrigins env) with (@nil string)
      by (by destruct Hunset as [H|H]; unfold getAllowedOrigins; rewrite H).
    rewrite bool_decide_eq_false_2; [apply andb_false_r|]. apply not_elem_of_nil.
Qed.

Lemma d1_origin_check_agrees_with_cors_witness :
  let req := {| slug := "hello-world"; origin := Some "https://evil.example";
                connecting_ip := Some "203.0.113.7";
                body := Js.BodyValue (Js.VNum (Js.Fin 1)); now := Sample.t0 |} in
  cors_origin Sample.env (origin req) = None /\
  D1.serve (D1.post Sha256.digest Sample.env req) Sample.empty =
    ({| D1.status := 403; D1.json := D1.Forbidden |}, Sample.empty, []).
Proof.
  split; [reflexivity|].
  pose proof (d1_origin_check_agrees_with_cors Sha256.digest Sample.env
                {| slug := "hello-world"; origin := Some "https://evil.example";
                   connecting_ip := Some "203.0.113.7";
                   body := Js.BodyValue (Js.VNum (Js.Fin 1)); now := Sample.t0 |}
                Sample.empty eq_refl) as H.
  cbv zeta in H. destruct H as ([_ H1] & H2 & _). apply H2, H1. reflexivity.
Defined.

(** * More on the KV worker *)

Lemma Qleb_true x y : Js.Qleb x y = true <-> (x <= y)%Q.
Proof.
  unfold Js.Qleb. rewrite Qle_alt. destruct (x ?= y)%Q; split; try done.
Qed.

Lemma Qleb_false x y : Js.Qleb x y = false <-> (y < x)%Q.
Proof.
  unfold Js.Qleb. rewrite Qgt_alt. destruct (x ?= y)%Q; split; try done.
Qed.

Lemma Qltb_false x y : Js.Qltb x y = false <-> (y <= x)%Q.
Proof.
  unfold Js.Qltb. split.
  - intros H. apply Qnot_lt_le. rewrite Qlt_alt. by destruct (x ?= y)%Q.
  - intros H%Qle_not_lt. rewrite Qlt_alt in H. by destruct (x ?= y)%Q.
Qed.

Lemma kv_clap_keys_inj s s' : KV.getClapKey s = KV.getClapKey s' -> s = s'.
Proof. unfold KV.getClapKey. apply string_app_inv_head. Qed.

Section KvPost.
Variable env : Env.

(** What an accepted POST of the KV worker does, spelled out. *)
Lemma kv_post_accepted req st :
  let out := KV.serve (KV.post env req) st in
  let rlKey := KV.getRateLimitKey (getClientIp req) (slug req) in
  let key := KV.getClapKey (slug req) in
  let inc := KV.incrementBy (match body req with
                             | Js.BodyValue count => count
                             | _ => Js.VNum (Js.Fin 1)
                             end) in
  let rl := KV.rlData (match st !! rlKey with
                       | Some (KV.KvRl c s) => Some (c, s)
                       | _ => None
                       end) (now req) in
  let record := KV.KvRl (KV.stored_count (Js.add (Js.Fin rl.1) inc)) rl.2 in
  let newCount := Js.add (KV.parseCount (st !! key)) inc in
  KV.status out.1.1 = 200 ->
  out = ({| KV.status := 200; KV.json := KV.CountSuccess newCount |},
         <[key := KV.KvCount newCount]> (<[rlKey := record]> st),
         [KV.Get rlKey; KV.Put rlKey record (Some 7200);
          KV.Get key; KV.Put key (KV.KvCount newCount) None]) /\
  Js.gt (Js.add (Js.Fin rl.1) inc) (Js.of_Z KV.MAX_CLAPS_PER_IP) = false.
Proof.
  cbv zeta. unfold KV.serve, KV.post.
  destruct (negb (isValidSlug (slug req))); [done|].
  destruct (match origin req with Some _ => _ | None => _ end); [done|].
  destruct (body req) as [| |count]; [|done|]; cbn [run KV.exec];
    (destruct (st !! KV.getRateLimitKey (getClientIp req) (slug req)) as [[n|c opened]|];
     [done| |]);
    (destruct (KV.rlData _ (now req)) as [c' s'] eqn:Hrl; cbn [fst snd];
     destruct (Js.gt _ _) eqn:Hgt; [done|]; intros _; cbn [run KV.exec fst snd];
     rewrite lookup_insert_ne by apply kv_keys_differ; done).
Qed.

(** A POST that is not answered 200 has written nothing. *)
Lemma kv_post_refused req st :
  KV.status (KV.serve (KV.post env req) st).1.1 <> 200 ->
  (KV.serve (KV.post env req) st).1.2 = st.
Proof.
  unfold KV.serve, KV.post.
  destruct (negb (isValidSlug (slug req))); [done|].
  destruct (match origin req with Some _ => _ | None => _ end); [done|].
  destruct (match body req with Js.BodyInvalid => _ | _ => _ end) as [count|]; [|done].
  cbn [run KV.exec].
  destruct (match st !! _ with Some _ => _ | None => _ end) as [stored|]; [|done].
  destruct (KV.rlData stored (now req)) as [c s].
  destruct (Js.gt _ _); [done|]. cbn [run KV.exec fst snd]. done.
Qed.

Lemma kv_post_accepted_or_not req st :
  KV.status (KV.serve (KV.post env req) st).1.1 = 200 \/
  (KV.serve (KV.post env req) st).1.2 = st.
Proof.
  destruct (decide (KV.status (KV.serve (KV.post env req) st).1.1 = 200)); [by left|].
  right. by apply kv_post_refused.
Qed.

Lemma kv_record_within c inc :
  Js.gt (Js.add (Js.Fin c) inc) (Js.of_Z KV.MAX_CLAPS_PER_IP) = false ->
  (KV.stored_count (Js.add (Js.Fin c) inc) <= inject_Z KV.MAX_CLAPS_PER_IP)%Q.
Proof.
  destruct inc as [| | |q]; simpl; try done.
  intros H. by apply Qltb_false in H.
Qed.

Lemma kv_post_within req st :
  kv_within KV.MAX_CLAPS_PER_IP st ->
  kv_within KV.MAX_CLAPS_PER_IP (KV.serve (KV.post env req) st).1.2.
Proof.
  intros Hw. destruct (kv_post_accepted_or_not req st) as [H200| ->]; [|done].
  destruct (kv_post_accepted req st H200) as [-> Hgt]. cbn [fst snd].
  apply map_Forall_insert_2; [done|]. apply map_Forall_insert_2; [|done].
  by apply kv_record_within.
Qed.

Lemma kv_post_nan_stays req st s :
  st !! KV.getClapKey s = Some (KV.KvCount Js.NaN) ->
  (KV.serve (KV.post env req) st).1.2 !! KV.getClapKey s = Some (KV.KvCount Js.NaN).
Proof.
  intros Hs. destruct (kv_post_accepted_or_not req st) as [H200| ->]; [|done].
  destruct (kv_post_accepted req st H200) as [-> _]. cbn [fst snd].
  destruct (decide (slug req = s)) as [<-|Hne].
  - rewrite lookup_insert_eq, Hs. done.
  - rewrite lookup_insert_ne by (intros H; by apply kv_clap_keys_inj in H).
    rewrite lookup_insert_ne by apply kv_keys_differ. done.
Qed.

End KvPost.

(** X23: what an accepted POST does on the KV worker.  When the answer
    is 200, the handler has read the limiter's record, written it back
    with the increment added and a lifetime of 7200 s, read the counter,
    and written the counter back as the integer part of what it read
    (0 when there was nothing) plus the increment; the count in the
    answer is the counter it wrote. *)
Theorem kv_accepted_post_effect (env : Env) (req : Request) (st : gmap string KV.kv_value) :
  let out := KV.serve (KV.post env req) st in
  let rlKey := KV.getRateLimitKey (getClientIp req) (slug req) in
  let key := KV.getClapKey (slug req) in
  let inc := KV.incrementBy (match body req with
                             | Js.BodyValue count => count
                             | _ => Js.VNum (Js.Fin 1)
                             end) in
  let newCount := Js.add (KV.parseCount (st !! key)) inc in
  KV.status out.1.1 = 200 ->
  exists count start,
    out.1.1 = {| KV.status := 200; KV.json := KV.CountSuccess newCount |} /\
    out.1.2 !! key = Some (KV.KvCount newCount) /\
    out.1.2 !! rlKey = Some (KV.KvRl count start) /\
    (forall k, k <> key -> k <> rlKey -> out.1.2 !! k = st !! k) /\
    out.2 = [KV.Get rlKey; KV.Put rlKey (KV.KvRl count start) (Some 7200);
             KV.Get key; KV.Put key (KV.KvCount newCount) None].
Proof.
  intros out rlKey key inc newCount H200.
  destruct (kv_post_accepted env req st H200) as [Hout _].
  fold out rlKey key inc newCount in Hout. rewrite Hout. cbn [fst snd].
  eexists _, _. split; [done|]. split; [by rewrite lookup_insert_eq|].
  split; [|split; [|done]].
  - rewrite lookup_insert_ne by (apply not_eq_sym, kv_keys_differ).
    by rewrite lookup_insert_eq.
  - intros k Hk Hr. by rewrite !lookup_insert_ne.
Qed.

Lemma kv_accepted_post_effect_witness :
  let st : gmap string KV.kv_value :=
    {[ "claps:hello-world" := KV.KvCount (Js.Fin 41) ]} in
  let out := KV.serve (KV.post Sample.env (Sample.clap "203.0.113.7" 2 Sample.t0)) st in
  KV.status out.1.1 = 200 /\
  out.1.2 !! "claps:hello-world" = Some (KV.KvCount (Js.Fin 43)).
Proof.
  split; [vm_compute; reflexivity|].
  destruct (kv_accepted_post_effect Sample.env (Sample.clap "203.0.113.7" 2 Sample.t0)
              {[ "claps:hello-world" := KV.KvCount (Js.Fin 41) ]})
    as (count & start & _ & H & _); [vm_compute; reflexivity|].
  cbv zeta. etrans; [exact H|]. vm_compute. reflexivity.
Defined.

(** X24: a GET that follows an accepted POST for the same slug on the KV
    worker answers the integer part of the count the POST answered: the
    same count when that is an integer, and 3 after a POST that answered
    3.7. *)
Theorem kv_get_after_accepted_post
    (env : Env) (req reader : Request) (st : gmap string KV.kv_value) (count : Js.num) :
  (KV.serve (KV.post env req) st).1.1 =
    {| KV.status := 200; KV.json := KV.CountSuccess count |} ->
  slug reader = slug req ->
  let answer := (KV.serve (KV.get reader) (KV.serve (KV.post env req) st).1.2).1.1 in
  answer = {| KV.status := 200; KV.json := KV.Count (KV.parseCount (Some (KV.KvCount count))) |} /\
  (forall z, count = Js.of_Z z -> answer = {| KV.status := 200; KV.json := KV.Count count |}).
Proof.
  intros Hresp Hslug answer.
  assert (H200 : KV.status (KV.serve (KV.post env req) st).1.1 = 200)
    by (by rewrite Hresp).
  assert (Hv : isValidSlug (slug req) = true).
  { revert H200. unfold KV.serve, KV.post. by destruct (isValidSlug (slug req)). }
  destruct (kv_post_accepted env req st H200) as [Hout _].
  assert (Hans : answer = {| KV.status := 200;
                             KV.json := KV.Count (KV.parseCount (Some (KV.KvCount count))) |}).
  { unfold answer. rewrite Hout in Hresp |- *. cbn [fst snd] in *.
    injection Hresp as Hc. unfold KV.serve, KV.get. rewrite Hslug, Hv.
    cbn [negb run KV.exec fst snd]. rewrite lookup_insert_eq. by rewrite Hc. }
  split; [done|]. intros z ->. rewrite Hans. do 2 f_equal.
  unfold KV.parseCount, Js.of_Z. rewrite Qfloor_Z, Qceiling_Z. by destruct (Js.Qleb _ _).
Qed.

Lemma kv_get_after_accepted_post_witness :
  let req := Sample.clap "203.0.113.7" (37 # 10) Sample.t0 in
  let reader := Sample.clap "198.51.100.9" 1 (Sample.t0 + 10) in
  (KV.serve (KV.post Sample.env req) ∅).1.1 =
    {| KV.status := 200; KV.json := KV.CountSuccess (Js.Fin (37 # 10)) |} /\
  (KV.serve (KV.get reader) (KV.serve (KV.post Sample.env req) ∅).1.2).1.1 =
    {| KV.status := 200; KV.json := KV.Count (Js.Fin 3) |}.
Proof.
  split; [vm_compute; reflexivity|].
  destruct (kv_get_after_accepted_post Sample.env
              (Sample.clap "203.0.113.7" (37 # 10) Sample.t0)
              (Sample.clap "198.51.100.9" 1 (Sample.t0 + 10)) ∅ (Js.Fin (37 # 10)))
    as [H _]; [vm_compute; reflexivity|reflexivity|].
  cbv zeta. etrans; [exact H|]. vm_compute. reflexivity.
Defined.

(** X25: the Origin check of the KV worker's POST.  A POST for a valid
    slug is answered 403 "Forbidden" exactly when it carries an Origin
    header that is not empty and not among the allowed origins; a request
    without the header is not turned away by this check, although the CORS
    callback returns null for it.  A request answered 403 has read and
    written nothing. *)
Theorem kv_origin_check_exact (env : Env) (req : Request) (st : gmap string KV.kv_value) :
  isValidSlug (slug req) = true ->
  let out := KV.serve (KV.post env req) st in
  (KV.json out.1.1 = KV.Forbidden <->
   exists o, origin req = Some o /\ o <> "" /\ o ∉ getAllowedOrigins env) /\
  (KV.json out.1.1 = KV.Forbidden ->
   out.1.2 = st /\ out.2 = [] /\ cors_origin env (origin req) = None) /\
  (origin req = None ->
   KV.json out.1.1 <> KV.Forbidden /\ cors_origin env (origin req) = None).
Proof.
  intros Hv out.
  assert (Hiff : KV.json out.1.1 = KV.Forbidden <->
                 exists o, origin req = Some o /\ o <> "" /\ o ∉ getAllowedOrigins env).
  { unfold out, KV.serve, KV.post, has. rewrite Hv. cbn [negb].
    destruct (origin req) as [o|].
    - destruct (String.eqb_spec o "") as [->|Hne]; cbn [negb andb].
      + split; [|by intros (o & [= <-] & ? & _)].
        destruct (match body req with Js.BodyInvalid => _ | _ => _ end); [|done].
        cbn [run KV.exec].
        destruct (match st !! _ with Some _ => _ | None => _ end) as [stored|]; [|done].
        destruct (KV.rlData stored (now req)). by destruct (Js.gt _ _).
      + case_bool_decide as Hin; cbn [negb].
        * split; [|by intros (o' & [= <-] & _ & ?)].
          destruct (match body req with Js.BodyInvalid => _ | _ => _ end); [|done].
          cbn [run KV.exec].
          destruct (match st !! _ with Some _ => _ | None => _ end) as [stored|]; [|done].
          destruct (KV.rlData stored (now req)). by destruct (Js.gt _ _).
        * split; [eauto|done].
    - split; [|by intros (o & [=] & _)].
      destruct (match body req with Js.BodyInvalid => _ | _ => _ end); [|done].
      cbn [run KV.exec].
      destruct (match st !! _ with Some _ => _ | None => _ end) as [stored|]; [|done].
      destruct (KV.rlData stored (now req)). by destruct (Js.gt _ _). }
  split; [done|]. split.
  - intros Hf. apply Hiff in Hf as (o & Ho & Hne & Hnin).
    unfold out, KV.serve, KV.post, cors_origin, has. rewrite Hv, Ho. cbn [negb].
    apply String.eqb_neq in Hne. rewrite Hne.
    rewrite bool_decide_eq_false_2 by done. done.
  - intros Hnone. split; [|by rewrite Hnone].
    intros Hf. apply Hiff in Hf as (o & Ho & _). by rewrite Hnone in Ho.
Qed.

Lemma kv_origin_check_exact_witness :
  let req := {| slug := "hello-world"; origin := None;
                connecting_ip := Some "203.0.113.7";
                body := Js.BodyValue (Js.VNum (Js.Fin 1)); now := Sample.t0 |} in
  KV.json (KV.serve (KV.post Sample.env req) ∅).1.1 <> KV.Forbidden.
Proof.
  pose proof (kv_origin_check_exact Sample.env
                {| slug := "hello-world"; origin := None;
                   connecting_ip := Some "203.0.113.7";
                   body := Js.BodyValue (Js.VNum (Js.Fin 1)); now := Sample.t0 |} ∅ eq_refl)
    as H.
  cbv zeta in H. destruct H as (_ & _ & H). exact (proj1 (H eq_refl)).
Defined.

(** X26: the increment of the KV worker.  It is a number from 1 to 10,
    or NaN; it is NaN exactly for a count that is truthy and converts to
    no number, such as a text that is not numeric; and a number from 1 to
    10 is taken as it is, with its fraction. *)
Theorem kv_increment_range (count : Js.value) :
  match KV.incrementBy count with
  | Js.Fin q => (1 <= q)%Q /\ (q <= 10)%Q
  | Js.NaN => Js.truthy count = true /\ Js.Number count = Js.NaN
  | _ => False
  end /\
  (forall q, count = Js.VNum (Js.Fin q) -> (1 <= q)%Q -> (q <= 10)%Q ->
             exists q', KV.incrementBy count = Js.Fin q' /\ (q' == q)%Q).
Proof.
  split.
  - unfold KV.incrementBy. destruct (Js.truthy count) eqn:Ht; [|by vm_compute].
    destruct (Js.Number count) as [| | |x] eqn:Hn; [done|by vm_compute|by vm_compute|].
    unfold Js.max. destruct (Js.Qleb x 1) eqn:H1.
    + by vm_compute.
    + unfold Js.min. apply Qleb_false in H1.
      destruct (Js.Qleb x 10) eqn:H10.
      * apply Qleb_true in H10. split; [by apply Qlt_le_weak|done].
      * by vm_compute.
  - intros q -> H1 H10. unfold KV.incrementBy.
    assert (Js.truthy (Js.VNum (Js.Fin q)) = true) as ->.
    { simpl. unfold Js.is_zero. apply negb_true_iff, Z.eqb_neq.
      intros H0. destruct q as [n d]. simpl in H0. subst n.
      unfold Qle in H1. simpl in H1. lia. }
    cbn [Js.Number Js.max]. destruct (Js.Qleb q 1) eqn:Hq1.
    + apply Qleb_true in Hq1. exists 1%Q. split; [by vm_compute|].
      by apply Qle_antisym.
    + exists q. split; [|reflexivity]. cbn [Js.min].
      apply Qleb_true in H10. by rewrite H10.
Qed.

(** X27: the ceiling of the KV worker when requests come one after the
    other.  When no record of the limiter is above 50 to begin with, none
    is above 50 after any sequence of POSTs, whatever they ask for: the
    handler writes a record only after it has found the new count at most
    50. *)
Theorem kv_ceiling_kept (env : Env) (reqs : list Request) (st : gmap string KV.kv_value) :
  kv_within 50 st -> kv_within 50 (kv_handle_all env reqs st).
Proof.
  revert st. induction reqs as [|req reqs IH]; intros st Hw; [done|].
  apply IH. by apply kv_post_within.
Qed.

Lemma kv_ceiling_kept_witness :
  let reqs := map (fun i => Sample.clap "203.0.113.7" 10 (Sample.t0 + 1000 * Z.of_nat i))
                  (seq 0 7) in
  kv_within 50 (kv_handle_all Sample.env reqs ∅).
Proof.
  apply (kv_ceiling_kept Sample.env
           (map (fun i => Sample.clap "203.0.113.7" 10 (Sample.t0 + 1000 * Z.of_nat i))
                (seq 0 7)) ∅).
  apply map_Forall_empty.
Defined.

(** X28: a count that is no number is accepted by the KV worker and
    spoils the counter.  A POST for a valid slug that passes the Origin
    check, whose count is truthy and converts to no number, is answered
    200 with the count NaN; the counter of the slug is written as NaN
    whatever it held, and the limiter's record of the client is written
    with the count 0. *)
Theorem kv_non_numeric_count_accepted
    (env : Env) (req : Request) (st : gmap string KV.kv_value) (count : Js.value) :
  let out := KV.serve (KV.post env req) st in
  let rlKey := KV.getRateLimitKey (getClientIp req) (slug req) in
  isValidSlug (slug req) = true ->
  cors_origin env (origin req) = origin req ->
  body req = Js.BodyValue count ->
  Js.truthy count = true -> Js.Number count = Js.NaN ->
  (forall n, st !! rlKey <> Some (KV.KvCount n)) ->
  out.1.1 = {| KV.status := 200; KV.json := KV.CountSuccess Js.NaN |} /\
  out.1.2 !! KV.getClapKey (slug req) = Some (KV.KvCount Js.NaN) /\
  exists start, out.1.2 !! rlKey = Some (KV.KvRl 0 start).
Proof.
  intros out rlKey Hv Ho Hb Ht Hn Hrl.
  assert (Hinc : KV.incrementBy count = Js.NaN).
  { unfold KV.incrementBy. by rewrite Ht, Hn. }
  assert (H200 : KV.status out.1.1 = 200).
  { unfold out, KV.serve, KV.post. rewrite Hv, Hb. cbn [negb].
    assert ((match origin req with
             | Some origin => negb (String.eqb origin "") &&
                              negb (has (getAllowedOrigins env) origin)
             | None => false
             end) = false) as ->.
    { unfold cors_origin in Ho. destruct (origin req) as [o|]; [|done].
      destruct (String.eqb o ""); [done|]. by destruct (has _ o). }
    cbn [run KV.exec]. fold rlKey.
    destruct (st !! rlKey) as [[n|c s]|] eqn:Hst; [by destruct (Hrl n)| |];
      (destruct (KV.rlData _ (now req)) as [c' s']; rewrite Hinc; done). }
  destruct (kv_post_accepted env req st H200) as [Hout _].
  fold out rlKey in Hout. rewrite Hb, Hinc in Hout. rewrite Hout. cbn [fst snd].
  assert (forall x, Js.add x Js.NaN = Js.NaN) as Hadd by (by intros [| | |?]).
  rewrite !Hadd. split; [done|]. split; [by rewrite lookup_insert_eq|].
  rewrite lookup_insert_ne by (apply not_eq_sym, kv_keys_differ).
  rewrite lookup_insert_eq. eauto.
Qed.

Lemma kv_non_numeric_count_accepted_witness :
  let req := {| slug := "hello-world"; origin := Some "https://blog.example";
                connecting_ip := Some "203.0.113.7";
                body := Js.BodyValue (Js.VStr "many" Js.NaN); now := Sample.t0 |} in
  let st : gmap string KV.kv_value :=
    {[ "claps:hello-world" := KV.KvCount (Js.Fin 41) ]} in
  (KV.serve (KV.post Sample.env req) st).1.2 !! "claps:hello-world" =
    Some (KV.KvCount Js.NaN).
Proof.
  destruct (kv_non_numeric_count_accepted Sample.env
              {| slug := "hello-world"; origin := Some "https://blog.example";
                 connecting_ip := Some "203.0.113.7";
                 body := Js.BodyValue (Js.VStr "many" Js.NaN); now := Sample.t0 |}
              {[ "claps:hello-world" := KV.KvCount (Js.Fin 41) ]}
              (Js.VStr "many" Js.NaN)) as (_ & H & _);
    [reflexivity|reflexivity|reflexivity|reflexivity|reflexivity| |exact H].
  intros n. vm_compute. discriminate.
Defined.

(** X29: a counter of the KV worker that holds NaN stays NaN.  Once the
    counter of a slug is NaN, it is NaN after any sequence of POSTs, and a
    GET for the slug answers 200 with the count NaN. *)
Theorem kv_nan_counter_stays
    (env : Env) (reqs : list Request) (reader : Request) (st : gmap string KV.kv_value) :
  isValidSlug (slug reader) = true ->
  st !! KV.getClapKey (slug reader) = Some (KV.KvCount Js.NaN) ->
  let st' := kv_handle_all env reqs st in
  st' !! KV.getClapKey (slug reader) = Some (KV.KvCount Js.NaN) /\
  (KV.serve (KV.get reader) st').1.1 = {| KV.status := 200; KV.json := KV.Count Js.NaN |}.
Proof.
  intros Hv Hs st'.
  assert (Hst' : st' !! KV.getClapKey (slug reader) = Some (KV.KvCount Js.NaN)).
  { unfold st'. clear st'. revert st Hs.
    induction reqs as [|req reqs IH]; intros st Hs; [done|].
    apply IH. by apply kv_post_nan_stays. }
  split; [done|]. unfold KV.serve, KV.get. rewrite Hv. cbn [negb run KV.exec fst snd].
  by rewrite Hst'.
Qed.

Lemma kv_nan_counter_stays_witness :
  let st : gmap string KV.kv_value := {[ "claps:hello-world" := KV.KvCount Js.NaN ]} in
  let reqs := [Sample.clap "203.0.113.7" 3 Sample.t0;
               Sample.clap "198.51.100.9" 1 (Sample.t0 + 1000)] in
  (KV.serve (KV.get (Sample.clap "198.51.100.9" 1 (Sample.t0 + 2000)))
     (kv_handle_all Sample.env reqs st)).1.1 =
  {| KV.status := 200; KV.json := KV.Count Js.NaN |}.
Proof.
  apply (kv_nan_counter_stays Sample.env
           [Sample.clap "203.0.113.7" 3 Sample.t0;
            Sample.clap "198.51.100.9" 1 (Sample.t0 + 1000)]
           (Sample.clap "198.51.100.9" 1 (Sample.t0 + 2000))
           {[ "claps:hello-world" := KV.KvCount Js.NaN ]});
    reflexivity.
Defined.

(** X30: the key of the KV worker's limiter does not tell all pairs
    apart.  An address and a slug are joined by a colon, and both may
    contain colons: the client ip:a asking for the slug b and the client
    ip asking for the slug a:b, both slugs valid, share one record. *)
Theorem kv_limiter_key_shared (ip a b : string) :
  isValidSlug a = true -> isValidSlug b = true ->
  (String.length a + String.length b < 200)%nat ->
  isValidSlug (a +:+ ":" +:+ b) = true /\
  KV.getRateLimitKey (ip +:+ ":" +:+ a) b = KV.getRateLimitKey ip (a +:+ ":" +:+ b).
Proof.
  intros Ha Hb Hlen. split.
  - unfold isValidSlug in *.
    destruct a as [|c a]; [done|]. destruct b as [|d b]; [done|].
    cbn [String.eqb orb] in *.
    destruct (MAX_SLUG_LEN <? String.length (String c a))%nat; [done|].
    destruct (MAX_SLUG_LEN <? String.length (String d b))%nat; [done|].
    assert ((MAX_SLUG_LEN <? String.length (String c a +:+ ":" +:+ String d b))%nat = false)
      as Hl.
    { apply Nat.ltb_ge. rewrite !string_length_app. unfold MAX_SLUG_LEN.
      simpl in *. lia. }
    change (String c a +:+ ":" +:+ String d b)
      with (String c (a +:+ ":" +:+ String d b)) in *.
    cbn [String.eqb]. rewrite Hl. cbn [SLUG_RE_test] in *.
    apply andb_prop in Ha as [Hc Ha]. apply andb_prop in Hb as [Hd Hb].
    rewrite Hc, !all_chars_app, Ha. cbn [all_chars andb].
    rewrite Hb. unfold slug_rest at 2. rewrite Hd. done.
  - unfold KV.getRateLimitKey.
    assert (forall x y z : string, (x +:+ y) +:+ z = x +:+ (y +:+ z)) as Hassoc.
    { induction x as [|c x IH]; intros y z; [done|].
      change (String c ((x +:+ y) +:+ z) = String c (x +:+ y +:+ z)). by rewrite IH. }
    by rewrite !Hassoc.
Qed.

Lemma kv_limiter_key_shared_witness :
  KV.getRateLimitKey "2001:db8::1:a" "b" = KV.getRateLimitKey "2001:db8::1" "a:b" /\
  isValidSlug "a:b" = true.
Proof.
  destruct (kv_limiter_key_shared "2001:db8::1" "a" "b") as [H1 H2];
    [reflexivity|reflexivity|simpl; lia|].
  split; [exact H2|exact H1].
Defined.

(** * Instances of the properties of handlers in flight *)

Lemma interleaved_accepted_sum_witness :
  let one := Sample.clap "203.0.113.7" 1 Sample.t0 in
  let five := Sample.clap "198.51.100.9" 5 Sample.t0 in
  let out := D1.concurrent [0; 1; 1; 0]%nat
               (D1.post Sha256.digest Sample.env <$> [one; five]) Sample.empty in
  D1.count_of out.2 "hello-world" = 6.
Proof.
  pose proof (interleaved_accepted_sum Sha256.digest Sample.env [0; 1; 1; 0]%nat
                [Sample.clap "203.0.113.7" 1 Sample.t0;
                 Sample.clap "198.51.100.9" 5 Sample.t0]
                Sample.empty "hello-world") as H.
  cbv zeta in H. etrans; [apply H|vm_compute; reflexivity].
  - repeat constructor.
  - vm_compute. repeat constructor; eexists; split; reflexivity.
Defined.

Lemma debounce_in_flight_witness :
  let one := Sample.clap "203.0.113.7" 1 Sample.t0 in
  let five := Sample.clap "198.51.100.9" 5 Sample.t0 in
  let again := Sample.clap "203.0.113.7" 2 (Sample.t0 + 300) in
  let out := D1.concurrent [0; 1; 0]%nat
               (D1.post Sha256.digest Sample.env <$> [one; five]) Sample.empty in
  out.1 !! 0%nat = Some (Ret {| D1.status := 200; D1.json := D1.CountSuccess 1 |}) /\
  settle D1.exec D1.sync (D1.post Sha256.digest Sample.env again) out.2 =
    (Ret {| D1.status := 429; D1.json := D1.TooFast |}, out.2).
Proof.
  split; [vm_compute; reflexivity|].
  apply (debounce_in_flight Sha256.digest Sample.env [0; 1; 0]%nat
           [Sample.clap "203.0.113.7" 1 Sample.t0; Sample.clap "198.51.100.9" 5 Sample.t0]
           Sample.empty 0%nat (Sample.clap "203.0.113.7" 1 Sample.t0)
           {| D1.status := 200; D1.json := D1.CountSuccess 1 |}
           (Sample.clap "203.0.113.7" 2 (Sample.t0 + 300)));
    vm_compute; reflexivity.
Defined.

Lemma kv_post_rate_limited_untouched_witness :
  let st : gmap string KV.kv_value :=
    {[ "rl:203.0.113.7:hello-world" := KV.KvRl 45 Sample.t0 ]} in
  let req := Sample.clap "203.0.113.7" 6 (Sample.t0 + 1000) in
  KV.json (KV.serve (KV.post Sample.env req) st).1.1 = KV.RateLimitExceeded /\
  (KV.serve (KV.post Sample.env req) st).1.2 = st.
Proof.
  split; [vm_compute; reflexivity|].
  apply (kv_post_rate_limited_untouched Sample.env
           (Sample.clap "203.0.113.7" 6 (Sample.t0 + 1000))
           {[ "rl:203.0.113.7:hello-world" := KV.KvRl 45 Sample.t0 ]}).
  vm_compute. reflexivity.
Defined.
